(** * go-data-segment: Merkle trees over truncated SHA-256 and the
    data-segment inclusion verifier

    A shallow embedding of [merkleTree/merkleTree.go] and
    [datasegment/inclusion.go].  Go values are modelled as follows:

    - [int] and [uint64] are [Z]; conversions and wrap-around are written
      out with [uint64] and [int64];
    - [[]byte] is [list byte], [[32]byte] is a [list byte] of length 32;
    - slices are lists, read with [!!] and written with [<[ i := x ]>];
      an access outside the slice is the run-time panic [Panic];
    - a Go function returning [(T, error)] returns an [outcome T]. *)

From Stdlib Require Import ZArith Lia ZifyNat Strings.Byte String DecimalString.
From stdpp Require Import base tactics option list.

Local Open Scope Z_scope.

(** ** Outcomes of Go calls *)

(** A Go [error] value: [errors.New msg], or [xerrors.Errorf] wrapping an
    inner error with [%w]. *)
Inductive error : Type :=
| ErrNew (msg : string)
| ErrWrap (msg : string) (inner : error).

(** What a call does: it returns a value, returns an error to its caller,
    or aborts with a run-time panic (index out of range, nil dereference,
    negative length or shift count). *)
Inductive outcome (A : Type) : Type :=
| Ok (a : A)
| Err (e : error)
| Panic.

Arguments Ok {A} a.
Arguments Err {A} e.
Arguments Panic {A}.

Definition bind {A B : Type} (m : outcome A) (k : A -> outcome B) : outcome B :=
  match m with
  | Ok a => k a
  | Err e => Err e
  | Panic => Panic
  end.

Notation "'let!' x ':=' m 'in' k" := (bind m (fun x => k))
  (at level 10, x name, m at level 100, k at level 200).

(** Reading a slice element: out of range is a panic. *)
Definition index {A : Type} (l : list A) (i : nat) : outcome A :=
  match l !! i with
  | Some a => Ok a
  | None => Panic
  end.

(** Writing a slice element: out of range is a panic. *)
Definition assign {A : Type} (l : list A) (i : nat) (a : A) : outcome (list A) :=
  if decide (i < length l)%nat then Ok (<[ i := a ]> l) else Panic.

(** ** Machine integers *)

Definition uint64 (z : Z) : Z := z mod 2 ^ 64.

Definition int64 (z : Z) : Z := (z + 2 ^ 63) mod 2 ^ 64 - 2 ^ 63.

Definition maxInt : Z := 2 ^ 63 - 1.

(** ** Bytes *)

Definition byte_to_Z (b : byte) : Z := Z.of_N (Byte.to_N b).

Definition byte_of_Z (z : Z) : byte :=
  match Byte.of_N (Z.to_N (z mod 256)) with
  | Some b => b
  | None => x00
  end.

#[global] Instance byte_eq_decision : EqDecision byte := Byte.byte_eq_dec.

(** ** crypto/sha256

    [sha256.Sum256] of the Go standard library (FIPS 180-4), on 32-bit
    words held in [Z]. *)
Module SHA256.

(** Reduction to 32 bits of a non-negative number. *)
Definition w32 (z : Z) : Z := Z.land z 0xFFFFFFFF.

Definition add32 (a b : Z) : Z := w32 (a + b).

Definition rotr (n x : Z) : Z :=
  w32 (Z.lor (Z.shiftr x n) (Z.shiftl x (32 - n))).

Definition not32 (x : Z) : Z := Z.lxor x 0xFFFFFFFF.

Definition Ch (x y z : Z) : Z := Z.lxor (Z.land x y) (Z.land (not32 x) z).

Definition Maj (x y z : Z) : Z :=
  Z.lxor (Z.lxor (Z.land x y) (Z.land x z)) (Z.land y z).

Definition bigSigma0 (x : Z) : Z :=
  Z.lxor (Z.lxor (rotr 2 x) (rotr 13 x)) (rotr 22 x).

Definition bigSigma1 (x : Z) : Z :=
  Z.lxor (Z.lxor (rotr 6 x) (rotr 11 x)) (rotr 25 x).

Definition smallSigma0 (x : Z) : Z :=
  Z.lxor (Z.lxor (rotr 7 x) (rotr 18 x)) (Z.shiftr x 3).

Definition smallSigma1 (x : Z) : Z :=
  Z.lxor (Z.lxor (rotr 17 x) (rotr 19 x)) (Z.shiftr x 10).

(** The constants of FIPS 180-4 are derived the way the standard defines
    them, from the first 64 primes. *)
Definition is_prime (n : nat) : bool :=
  forallb (fun d => negb (n mod d =? 0)%nat) (seq 2 (n - 2)).

Definition primes : list Z :=
  map Z.of_nat (filter (fun n => is_prime n = true) (seq 2 310)).

(** The integer cube root, one bit at a time from bit [bits - 1] down. *)
Fixpoint cbrt_bits (bits : nat) (n root : Z) : Z :=
  match bits with
  | O => root
  | S below =>
      let next := root + 2 ^ Z.of_nat below in
      cbrt_bits below n (if next * next * next <=? n then next else root)
  end.

Definition cbrt (n : Z) : Z := cbrt_bits 40 n 0.

(** The round constants: the first 32 bits of the fractional parts of the
    cube roots of the first 64 primes. *)
Definition K : list Z :=
  Eval vm_compute in map (fun p => w32 (cbrt (p * 2 ^ 96))) primes.

(** The initial hash value: the same of the square roots of the first 8
    primes. *)
Definition init : list Z :=
  Eval vm_compute in map (fun p => w32 (Z.sqrt (p * 2 ^ 64))) (take 8 primes).

(** Big-endian encoding of [z] on [n] bytes. *)
Fixpoint be_bytes (n : nat) (z : Z) : list byte :=
  match n with
  | O => []
  | S n' => be_bytes n' (Z.shiftr z 8) ++ [byte_of_Z z]
  end.

Definition be_word (bs : list byte) : Z :=
  fold_left (fun acc b => acc * 256 + byte_to_Z b) bs 0.

(** Padding: a 1 bit, zeros up to 56 modulo 64, the bit length on 8 bytes. *)
Definition pad (msg : list byte) : list byte :=
  let len := Z.of_nat (length msg) in
  let zeros := Z.to_nat ((55 - len) mod 64) in
  msg ++ [x80] ++ repeat x00 zeros ++ be_bytes 8 (8 * len).

(** Cut a byte string into chunks of [n] bytes. *)
Fixpoint chunks (fuel : nat) (n : nat) (bs : list byte) : list (list byte) :=
  match fuel with
  | O => []
  | S fuel' =>
      match bs with
      | [] => []
      | _ => take n bs :: chunks fuel' n (drop n bs)
      end
  end.

Definition words_of (block : list byte) : list Z :=
  map be_word (chunks 16 4 block).

(** The message schedule, newest word first: [sched] holds W[t-1], W[t-2], ... *)
Fixpoint schedule (n : nat) (sched : list Z) : list Z :=
  match n with
  | O => sched
  | S n' =>
      let w t := default 0 (sched !! t) in
      let next :=
        add32 (add32 (smallSigma1 (w 1%nat)) (w 6%nat))
              (add32 (smallSigma0 (w 14%nat)) (w 15%nat)) in
      schedule n' (next :: sched)
  end.

Definition round (st : list Z) (kw : Z * Z) : list Z :=
  match st with
  | [a; b; c; d; e; f; g; h] =>
      let t1 := add32 (add32 (add32 h (bigSigma1 e)) (add32 (Ch e f g) (fst kw))) (snd kw) in
      let t2 := add32 (bigSigma0 a) (Maj a b c) in
      [add32 t1 t2; a; b; c; add32 d t1; e; f; g]
  | _ => st
  end.

Definition compress (st : list Z) (block : list byte) : list Z :=
  let w := rev (schedule 48 (rev (words_of block))) in
  let st' := fold_left round (combine K w) st in
  zip_with add32 st st'.

Definition Sum256 (msg : list byte) : list byte :=
  let padded := pad msg in
  let blocks := chunks (length padded) 64 padded in
  concat (map (be_bytes 4) (fold_left compress blocks init)).

End SHA256.

(** Hexadecimal rendering of a byte string, for test vectors. *)
Definition hex_digit (z : Z) : string :=
  String.substring (Z.to_nat z) 1 "0123456789abcdef".

Definition hex (bs : list byte) : string :=
  fold_right (fun b s => hex_digit (byte_to_Z b / 16) ++ hex_digit (byte_to_Z b mod 16) ++ s)%string
             ""%string bs.

Definition bytes_of_string (s : string) : list byte := list_byte_of_string s.

(** ** merkleTree/merkleTree.go *)
Module MerkleTree.

Definition digestBytes : nat := 32.

(** [type Node struct { data [digestBytes]byte }] *)
Record Node : Type := mkNode { data : list byte }.

#[global] Instance Node_eq_decision : EqDecision Node.
Proof. solve_decision. Defined.

(** The zero value [Node{}], whose data is [[digestBytes]byte{}]. *)
Definition zeroNode : Node := mkNode (repeat x00 digestBytes).

(** [type TreeData struct { nodes [][]Node }]: rows from the root down. *)
Record TreeData : Type := mkTree { nodes : list (list Node) }.

(** [type ProofData struct { path []Node; lvl int; idx int }] *)
Record ProofData : Type := mkProof { path : list Node; lvl : Z; idx : Z }.

Record BatchedProofData : Type := mkBatched {
  leftPath : list Node;
  rightPath : list Node;
  commonPath : list Node;
  leftLvl : Z;
  leftIdx : Z;
  rightLvl : Z;
  rightIdx : Z
}.

(** Slice accesses with an [int] index. *)
Definition indexZ {A : Type} (l : list A) (i : Z) : outcome A :=
  if i <? 0 then Panic else index l (Z.to_nat i).

Definition assignZ {A : Type} (l : list A) (i : Z) (a : A) : outcome (list A) :=
  if i <? 0 then Panic else assign l (Z.to_nat i) a.

(** [make([]T, n)]: [n] zero values; a negative length panics. *)
Definition make {A : Type} (zero : A) (n : Z) : outcome (list A) :=
  if n <? 0 then Panic else Ok (repeat zero (Z.to_nat n)).

(** [s[from:]], which panics when [from] exceeds the length. *)
Definition sliceFrom {A : Type} (l : list A) (from : nat) : outcome (list A) :=
  if decide (from <= length l)%nat then Ok (drop from l) else Panic.

(** [s[:to]] on a slice whose capacity is its length. *)
Definition sliceTo {A : Type} (l : list A) (to : nat) : outcome (list A) :=
  if decide (to <= length l)%nat then Ok (take to l) else Panic.

Definition len {A : Type} (l : list A) : Z := Z.of_nat (length l).

(** [1 << i] on [int]. *)
Definition shl1 (i : Z) : Z := int64 (Z.shiftl 1 i).

(** *** Digest primitive *)

Definition truncatedHash (bytes : list byte) : Node :=
  let digst := SHA256.Sum256 bytes in
  mkNode (alter (fun b => byte_of_Z (Z.land (byte_to_Z b) 0x3F)) (256 / 8 - 1)%nat digst).

(** The 64-byte buffer [toHash] receives [left.data] then [right.data]. *)
Definition computeNode (left right : Node) : Node :=
  truncatedHash (data left ++ data right).

Definition hashList (input : list (list byte)) : list Node :=
  map truncatedHash input.

(** *** Integer helpers *)

Definition max (x y : Z) : Z := if x >? y then x else y.

Definition halfCeil (x : Z) : Z :=
  if Z.rem x 2 =? 0 then Z.quot x 2 else 1 + Z.quot x 2.

Definition getSiblingIdx (idx : Z) : Z :=
  if Z.rem idx 2 =? 0 then idx + 1 else idx - 1.

Definition tab64 : list Z :=
  [ 0xFFFFFFFF00000000;
    0x00000000FFFF0000;
    0x000000000000FF00;
    0x00000000000000F0;
    0x000000000000000C;
    0x0000000000000002 ].

(** The loop of [log2Ceil] over the entries of [tab64] that remain. *)
Fixpoint log2CeilLoop (tab : list Z) (j y value : Z) : Z :=
  match tab with
  | [] => y
  | mask :: tab' =>
      let k := if Z.land (uint64 value) mask =? 0 then 0 else j in
      log2CeilLoop tab' (Z.shiftr j 1) (y + k) (Z.shiftr value k)
  end.

Definition log2Ceil (value : Z) : Z :=
  let y := if Z.land value (int64 (value - 1)) =? 0 then 0 else 1 in
  log2CeilLoop tab64 32 y value.

(** *** Tree accessors *)

Definition Depth (d : TreeData) : Z := len (nodes d).

Definition Leafs (d : TreeData) : outcome Z :=
  let! row := indexZ (nodes d) (len (nodes d) - 1) in
  Ok (len row).

Definition GetRoot (d : TreeData) : outcome Node :=
  let! row := index (nodes d) 0 in
  index row 0.

(** *** Tree construction *)

(** [for i := 0; i <= log2Ceil(elements); i++], with [n] iterations left. *)
Fixpoint bareLoop (n : nat) (i : Z) (rows : list (list Node)) : outcome (list (list Node)) :=
  match n with
  | O => Ok rows
  | S n' =>
      let! row := make zeroNode (shl1 i) in
      let! rows' := assignZ rows i row in
      bareLoop n' (i + 1) rows'
  end.

Definition NewBareTree (elements : Z) : outcome TreeData :=
  let! rows := make [] (1 + log2Ceil elements) in
  let! rows' := bareLoop (Z.to_nat (log2Ceil elements + 1)) 0 rows in
  Ok (mkTree rows').

(** [for i := 0; i+1 < len(preLevel); i = i + 2]: [rest] is [preLevel[i:]]. *)
Fixpoint pairLoop (rest : list Node) (i : Z) (currentLevel : list Node) : outcome (list Node) :=
  match rest with
  | l :: r :: rest' =>
      let! currentLevel' := assignZ currentLevel (Z.quot i 2) (computeNode l r) in
      pairLoop rest' (i + 2) currentLevel'
  | _ => Ok currentLevel
  end.

(** One pass of the outer loop of [growTreeHashedLeafs]: the row above
    [preLevel]. *)
Definition buildLevel (preLevel : list Node) : outcome (list Node) :=
  let! currentLevel := make zeroNode (halfCeil (len preLevel)) in
  let! currentLevel := pairLoop preLevel 0 currentLevel in
  if Z.rem (len preLevel) 2 =? 1 then
    let! last := indexZ preLevel (len preLevel - 1) in
    assignZ currentLevel (halfCeil (len preLevel) - 1) (truncatedHash (data last))
  else Ok currentLevel.

(** [for level := log2Ceil(len(leafs)) - 1; level >= 0; level--], entered
    with [level + 1] iterations left. *)
Fixpoint growLoop (n : nat) (preLevel : list Node) (rows : list (list Node))
  : outcome (list (list Node)) :=
  match n with
  | O => Ok rows
  | S level =>
      let! currentLevel := buildLevel preLevel in
      let! rows' := assign rows level currentLevel in
      growLoop level currentLevel rows'
  end.

Definition growTreeHashedLeafs (leafs : list Node) : outcome TreeData :=
  let! tree := NewBareTree (len leafs) in
  let! rows := assignZ (nodes tree) (log2Ceil (len leafs)) leafs in
  let! rows' := growLoop (Z.to_nat (log2Ceil (len leafs))) leafs rows in
  Ok (mkTree rows').

Definition GrowTree (leafData : list (list byte)) : outcome TreeData :=
  if len leafData =? 0 then Err (ErrNew "empty input")
  else growTreeHashedLeafs (hashList leafData).

(** *** Proof extraction *)

(** [%d] of [fmt.Sprintf]. *)
Definition fmt_d (z : Z) : string := NilZero.string_of_int (Z.to_int z).

(** [for currentLvl := lvl; currentLvl >= 1; currentLvl--] of
    [ConstructProof], entered with [currentLvl] iterations left. *)
Fixpoint proofLoop (d : TreeData) (currentLvl : nat) (currentIdx : Z) (proof : list Node)
  : outcome (list Node) :=
  match currentLvl with
  | O => Ok proof
  | S above =>
      let! row := index (nodes d) currentLvl in
      if len row <=? currentIdx then
        Err (ErrNew ("the requested index " ++ fmt_d currentIdx ++ " on level "
                       ++ fmt_d (Z.of_nat currentLvl) ++ " does not exist in the tree"))
      else
        let! proof' :=
          (if len row >? getSiblingIdx currentIdx then
             let! sibling := indexZ row (getSiblingIdx currentIdx) in
             assign proof above sibling
           else Ok proof) in
        proofLoop d above (Z.quot currentIdx 2) proof'
  end.

Definition ConstructProof (d : TreeData) (lvl idx : Z) : outcome ProofData :=
  if (lvl <? 1) || (lvl >=? Depth d) then
    Err (ErrNew "level is either below 1 or bigger than the tree supports")
  else if idx <? 0 then
    Err (ErrNew ("the requested index " ++ fmt_d idx ++ " is negative"))
  else
    let! proof := make zeroNode lvl in
    let! proof' := proofLoop d (Z.to_nat lvl) idx proof in
    Ok (mkProof proof' lvl idx).

(** [for ctr = 0; ctr < maxLength; ctr++] of [ConstructBatchedProof], with
    [n = maxLength - ctr] iterations left; the result is the final [ctr]. *)
Fixpoint commonLoop (n : nat) (ctr : nat) (left right : list Node) : outcome nat :=
  match n with
  | O => Ok ctr
  | S n' =>
      let! l := index left ctr in
      let! r := index right ctr in
      if decide (l <> r) then Ok ctr
      else commonLoop n' (S ctr) left right
  end.

Definition ConstructBatchedProof (d : TreeData) (leftLvl leftIdx rightLvl rightIdx : Z)
  : outcome BatchedProofData :=
  if (leftLvl <? 1) || (leftLvl >=? Depth d) || (rightLvl <? 1) || (rightLvl >=? Depth d) then
    Err (ErrNew "a level is either below 1 or bigger than the tree supports")
  else if (leftIdx <? 0) || (rightIdx <? 0) then
    Err (ErrNew "a requested index is negative")
  else
    let! leftProof := ConstructProof d leftLvl leftIdx in
    let! rightProof := ConstructProof d rightLvl rightIdx in
    let maxLength := max (len (path leftProof)) (len (path rightProof)) in
    let! ctr := commonLoop (Z.to_nat maxLength) 0 (path leftProof) (path rightProof) in
    let! leftPath := sliceFrom (path leftProof) ctr in
    let! rightPath := sliceFrom (path rightProof) ctr in
    let! commonPath := sliceTo (path rightProof) ctr in
    Ok (mkBatched leftPath rightPath commonPath leftLvl leftIdx rightLvl rightIdx).

(** *** Proof validation *)

(** The body of the loop of [ValidateSubtree]: the parent of [currentNode]
    given the recorded [sibling]. *)
Definition foldStep (currentNode sibling : Node) (currentIdx : Z) : Node :=
  let sibIdx := getSiblingIdx currentIdx in
  if decide (data sibling = repeat x00 digestBytes) then
    truncatedHash (data currentNode)
  else if Z.rem sibIdx 2 =? 1 then computeNode currentNode sibling
  else computeNode sibling currentNode.

(** [for currentLvl := d.lvl; currentLvl >= 1; currentLvl--] of
    [ValidateSubtree], entered with [currentLvl] iterations left.  [parent]
    is the pointer of that name: [None] is nil. *)
Fixpoint validateLoop (d : ProofData) (currentLvl : nat) (currentNode : Node)
  (currentIdx : Z) (parent : option Node) : outcome (option Node) :=
  match currentLvl with
  | O => Ok parent
  | S above =>
      let! sibling := index (path d) above in
      let parent' := foldStep currentNode sibling currentIdx in
      validateLoop d above parent' (Z.quot currentIdx 2) (Some parent')
  end.

(** [subtree] and [root] are the nodes the two pointers refer to. *)
Definition ValidateSubtree (d : ProofData) (subtree root : Node) : outcome bool :=
  let! parent := validateLoop d (Z.to_nat (lvl d)) subtree (idx d) None in
  match parent with
  | None => Panic
  | Some p => if decide (data p <> data root) then Ok false else Ok true
  end.

Definition ValidateLeaf (d : ProofData) (bytes : list byte) (root : Node) : outcome bool :=
  ValidateSubtree d (truncatedHash bytes) root.

(** *** Tree validation *)

(** [reflect.DeepEqual] on two [[][]Node].  A list stands for a nil and for
    an empty slice alike, which [DeepEqual] tells apart; in the two callers
    below the rebuilt rows are never nil, and an empty one can only face a
    row of another length or the very same slice. *)
Definition deepEqual (a b : list (list Node)) : bool := bool_decide (a = b).

(** A failure of [GrowTree] is logged and answered with [false]. *)
Definition ValidateFromLeafs (d : TreeData) (leafs : list (list byte)) : outcome bool :=
  match GrowTree leafs with
  | Ok tree => Ok (deepEqual (nodes d) (nodes tree))
  | Err _ => Ok false
  | Panic => Panic
  end.

Definition Validate (d : TreeData) : outcome bool :=
  let! leafRow := indexZ (nodes d) (Depth d - 1) in
  let! tree := growTreeHashedLeafs leafRow in
  Ok (deepEqual (nodes d) (nodes tree)).

End MerkleTree.

(** ** datasegment/inclusion.go *)
Module DataSegment.
Import MerkleTree.

(** What [ComputeExpectedAuxData] calls and [src/] does not hold: the CID
    codec of go-fil-commcid, the Fr32 index entry of this repository, and
    the methods [ComputeRoot], [Depth] and [Index] of the [ProofData] that
    [inclusion.go] imports.  A call returning [(T, error)] is the pair of
    its results; a pointer result is [None] when nil. *)
Class Collaborators : Type := {
  Cid : Type;
  ProofData : Type;
  DataSegmentIndexEntry : Type;
  CIDToPieceCommitmentV1 : Cid -> list byte * option error;
  PieceCommitmentV1ToCID : list byte -> Cid * option error;
  ComputeRoot : ProofData -> Node -> option Node * option error;
  Depth : ProofData -> Z;
  Index : ProofData -> Z;
  MakeDataSegmentIndexEntry :
    Node -> Z -> Z -> option DataSegmentIndexEntry * option error;
  SerializeFr32 : DataSegmentIndexEntry -> list byte
}.

(** Modelled from the spec: the constant [BytesInNode] of package
    datasegment is missing; an index entry is 64 bytes, two nodes wide. *)
Definition BytesInNode : Z := 32.

Definition BytesInDataSegmentIndexEntry : Z := 2 * BytesInNode.

Section Inclusion.
Context {C : Collaborators}.

Record InclusionVerifierData : Type := mkVerifierData {
  CommPc : Cid;
  SizePc : Z
}.

Record InclusionAuxData : Type := mkAuxData {
  CommPa : Cid;
  SizePa : Z
}.

Record InclusionProof : Type := mkInclusionProof {
  ProofSubtree : ProofData;
  ProofIndex : ProofData
}.

(** [1 << count] on [abi.PaddedPieceSize], a [uint64]; a negative count
    panics. *)
Definition shl1_uint64 (count : Z) : outcome Z :=
  if count <? 0 then Panic else Ok (uint64 (Z.shiftl 1 count)).

(** The conversion of the slice [commPc] to a pointer to [merkletree.Node]:
    the first 32 bytes, a panic on a shorter slice. *)
Definition nodeOfSlice (bytes : list byte) : outcome Node :=
  if decide (digestBytes <= length bytes)%nat
  then Ok (mkNode (take digestBytes bytes))
  else Panic.

(** [*p]: a nil pointer panics. *)
Definition deref {A : Type} (p : option A) : outcome A :=
  match p with
  | Some a => Ok a
  | None => Panic
  end.

Definition ComputeExpectedAuxData (ip : InclusionProof) (veriferData : InclusionVerifierData)
  : outcome InclusionAuxData :=
  let '(commPc, err) := CIDToPieceCommitmentV1 (CommPc veriferData) in
  match err with
  | Some e => Err (ErrWrap "invalid piece commitment" e)
  | None =>
  let! nodeCommPc := nodeOfSlice commPc in
  let '(assumedCommPa, err) := ComputeRoot (ProofSubtree ip) nodeCommPc in
  match err with
  | Some e => Err (ErrWrap "could not validate the subtree proof" e)
  | None =>
  let! one := shl1_uint64 (Depth (ProofSubtree ip)) in
  let assumedSizePa := uint64 (one * SizePc veriferData) in
  let dataOffset := uint64 (Index (ProofSubtree ip) * uint64 (SizePc veriferData)) in
  let '(en, err) :=
    MakeDataSegmentIndexEntry nodeCommPc dataOffset (uint64 (SizePc veriferData)) in
  match err with
  | Some e => Err (ErrWrap "createding data segment index entry" e)
  | None =>
  let! entry := deref en in
  let enNode := truncatedHash (SerializeFr32 entry) in
  (* the error of this call is assigned and never read *)
  let '(assumedCommPa2, _) := ComputeRoot (ProofIndex ip) enNode in
  let! commPa2 := deref assumedCommPa2 in
  let! commPa := deref assumedCommPa in
  if decide (commPa2 <> commPa) then
    Err (ErrNew ("aggregator's data commiements don't match: "
                   ++ hex (data commPa) ++ " != " ++ hex (data commPa2)))
  else
  let! one2 := shl1_uint64 (Depth (ProofIndex ip)) in
  let assumedSizePa2 := uint64 (one2 * BytesInDataSegmentIndexEntry) in
  if negb (assumedSizePa2 =? assumedSizePa) then
    Err (ErrNew "aggregator's data size doesn't match")
  else
  let '(cidPa, err) := PieceCommitmentV1ToCID (data commPa) in
  match err with
  | Some e => Err (ErrWrap "converting raw commiement to CID" e)
  | None => Ok (mkAuxData cidPa assumedSizePa)
  end end end end.

End Inclusion.

End DataSegment.

(** * Properties *)

(** ** Test vectors of SHA-256 *)

Example sha256_constants :
  length SHA256.K = 64%nat /\ SHA256.K !! 0%nat = Some 0x428a2f98
  /\ SHA256.K !! 63%nat = Some 0xc67178f2
  /\ length SHA256.init = 8%nat /\ SHA256.init !! 0%nat = Some 0x6a09e667.
Proof. vm_compute. repeat split; reflexivity. Qed.

Example sha256_abc :
  hex (SHA256.Sum256 (bytes_of_string "abc"))
  = "ba7816bf8f01cfea414140de5dae2223b00361a396177a9cb410ff61f20015ad"%string.
Proof. vm_compute. reflexivity. Qed.

Example sha256_empty :
  hex (SHA256.Sum256 [])
  = "e3b0c44298fc1c149afbf4c8996fb92427ae41e4649b934ca495991b7852b855"%string.
Proof. vm_compute. reflexivity. Qed.

Example sha256_two_blocks :
  hex (SHA256.Sum256 (repeat "a"%byte 64))
  = "ffe054fe7ae0cb6dc65c3af9b61d5209f439851db43d0ba5997337df154668eb"%string.
Proof. vm_compute. reflexivity. Qed.

Example sha256_pad_boundary :
  hex (SHA256.Sum256 (repeat "a"%byte 56))
  = "b35439a4ac6f0948b6d6f9e3c6af0f5f590ce20f1bde7090ef7970686ec6738a"%string
  /\ hex (SHA256.Sum256 (repeat "a"%byte 55))
  = "9f4390f8d30c2dd92ec9f095b65e2b9ae9b0a925a5258e241c9f1e910f734318"%string.
Proof. vm_compute. split; reflexivity. Qed.

(** ** Machine integers in range *)

Lemma uint64_small (z : Z) : 0 <= z < 2 ^ 64 -> uint64 z = z.
Proof. intros Hz. unfold uint64. apply Z.mod_small. exact Hz. Qed.

Lemma int64_small (z : Z) : - 2 ^ 63 <= z < 2 ^ 63 -> int64 z = z.
Proof.
  intros Hz. unfold int64.
  rewrite Z.mod_small; lia.
Qed.

(** ** log2Ceil *)
Module Log2Ceil.
Import MerkleTree.

(** The mask selecting bits [j .. 2j-1]. *)
Definition mask (j : Z) : Z := Z.shiftl (Z.ones j) j.

Lemma mask_bit (j n : Z) :
  0 <= j -> Z.testbit (mask j) n = (j <=? n) && (n <? 2 * j).
Proof.
  intros Hj. unfold mask.
  destruct (Z.ltb_spec n 0) as [Hneg | Hnn].
  - rewrite Z.testbit_neg_r by lia.
    destruct (Z.leb_spec j n); [lia | reflexivity].
  - rewrite Z.shiftl_spec by lia.
    destruct (Z.leb_spec j n) as [Hle | Hlt]; simpl.
    + destruct (Z.ltb_spec n (2 * j)) as [Hin | Hout].
      * apply Z.ones_spec_low. lia.
      * apply Z.ones_spec_high. lia.
    + apply Z.testbit_neg_r. lia.
Qed.

Lemma land_mask_small (j v : Z) :
  0 <= j -> 0 <= v < 2 ^ j -> Z.land v (mask j) = 0.
Proof.
  intros Hj Hv. apply Z.bits_inj'. intros n Hn.
  rewrite Z.land_spec, Z.bits_0, mask_bit by lia.
  destruct (Z.leb_spec j n) as [Hle | Hlt]; simpl.
  - destruct (Z.eq_dec v 0) as [-> | Hv0].
    + rewrite Z.bits_0. reflexivity.
    + rewrite Z.bits_above_log2; [reflexivity | lia |].
      apply Z.lt_le_trans with j; [| exact Hle].
      apply Z.log2_lt_pow2; lia.
  - apply andb_false_r.
Qed.

Lemma land_mask_large (j v : Z) :
  0 <= j -> 2 ^ j <= v < 2 ^ (2 * j) -> Z.land v (mask j) <> 0.
Proof.
  intros Hj Hv Hzero.
  assert (Hpos : 0 < v) by (pose proof (Z.pow_pos_nonneg 2 j); lia).
  assert (Hlo : j <= Z.log2 v) by (apply Z.log2_le_pow2; lia).
  assert (Hhi : Z.log2 v < 2 * j) by (apply Z.log2_lt_pow2; lia).
  assert (Hbit : Z.testbit (Z.land v (mask j)) (Z.log2 v) = true).
  { rewrite Z.land_spec, Z.bit_log2, mask_bit by lia.
    destruct (Z.leb_spec j (Z.log2 v)); [| lia].
    destruct (Z.ltb_spec (Z.log2 v) (2 * j)); [reflexivity | lia]. }
  rewrite Hzero, Z.bits_0 in Hbit. discriminate.
Qed.

(** One iteration with shift amount [j] on a value below [2^(2j)]. *)
Lemma step (j v : Z) :
  0 < j <= 32 -> 0 < v < 2 ^ (2 * j) ->
  let k := if Z.land (uint64 v) (mask j) =? 0 then 0 else j in
  0 < Z.shiftr v k < 2 ^ j /\ Z.log2 v = k + Z.log2 (Z.shiftr v k).
Proof.
  intros Hj Hv k. subst k.
  assert (Htop : 2 ^ (2 * j) <= 2 ^ 64) by (apply Z.pow_le_mono_r; lia).
  rewrite uint64_small by lia.
  destruct (Z.ltb_spec v (2 ^ j)) as [Hsmall | Hlarge].
  - rewrite land_mask_small by lia. simpl.
    rewrite Z.shiftr_0_r. lia.
  - destruct (Z.eqb_spec (Z.land v (mask j)) 0) as [Hzero | _].
    { exfalso. revert Hzero. apply land_mask_large; lia. }
    assert (Hlo : j <= Z.log2 v) by (apply Z.log2_le_pow2; lia).
    rewrite Z.shiftr_div_pow2 by lia.
    split.
    + split.
      * apply Z.div_str_pos. pose proof (Z.pow_pos_nonneg 2 j). lia.
      * apply Z.div_lt_upper_bound; [apply Z.pow_pos_nonneg; lia |].
        rewrite <- Z.pow_add_r by lia.
        replace (j + j) with (2 * j) by lia. lia.
    + rewrite <- Z.shiftr_div_pow2 by lia.
      rewrite Z.log2_shiftr by lia. lia.
Qed.

(** The table of masks for the shift amounts [2^e, ..., 2, 1]. *)
Fixpoint masks (e : nat) : list Z :=
  mask (2 ^ Z.of_nat e) ::
  match e with
  | O => []
  | S e' => masks e'
  end.

Lemma tab64_masks : tab64 = masks 5.
Proof. vm_compute. reflexivity. Qed.

Lemma loop_masks (e : nat) (y v : Z) :
  (e <= 5)%nat -> 0 < v < 2 ^ (2 * 2 ^ Z.of_nat e) ->
  log2CeilLoop (masks e) (2 ^ Z.of_nat e) y v = y + Z.log2 v.
Proof.
  revert y v. induction e as [| e IH]; intros y v He Hv.
  - cbn [masks log2CeilLoop].
    destruct (step 1 v) as [Hrange Hlog]; [lia | exact Hv |].
    change (2 ^ Z.of_nat 0) with 1.
    assert (Hone : Z.shiftr v (if Z.land (uint64 v) (mask 1) =? 0 then 0 else 1) = 1)
      by (change (2 ^ 1) with 2 in Hrange; lia).
    rewrite Hone in Hlog. change (Z.log2 1) with 0 in Hlog. lia.
  - cbn [masks log2CeilLoop].
    set (j := 2 ^ Z.of_nat (S e)) in *.
    assert (Hj : j = 2 * 2 ^ Z.of_nat e).
    { subst j. rewrite Nat2Z.inj_succ, Z.pow_succ_r by lia. reflexivity. }
    assert (Hpow : 0 < 2 ^ Z.of_nat e) by (apply Z.pow_pos_nonneg; lia).
    assert (Hle : 2 ^ Z.of_nat e <= 2 ^ 4) by (apply Z.pow_le_mono_r; lia).
    change (2 ^ 4) with 16 in Hle.
    destruct (step j v) as [Hrange Hlog]; [lia | exact Hv |].
    assert (Hhalf : Z.shiftr j 1 = 2 ^ Z.of_nat e).
    { rewrite Z.shiftr_div_pow2 by lia. change (2 ^ 1) with 2.
      rewrite Hj, Z.mul_comm, Z.div_mul by lia. reflexivity. }
    rewrite Hhalf, IH; [lia | lia |].
    rewrite <- Hj. exact Hrange.
Qed.

Lemma loop_log2 (y v : Z) :
  0 < v < 2 ^ 64 -> log2CeilLoop tab64 32 y v = y + Z.log2 v.
Proof.
  intros Hv. rewrite tab64_masks.
  change 32 with (2 ^ Z.of_nat 5).
  apply loop_masks; [lia | exact Hv].
Qed.

(** [value & (value - 1)] vanishes exactly on the powers of two. *)
Lemma land_pred_pow2 (k : Z) : 0 <= k -> Z.land (2 ^ k) (2 ^ k - 1) = 0.
Proof.
  intros Hk. rewrite Z.sub_1_r, <- Z.ones_equiv.
  rewrite Z.land_ones by exact Hk.
  apply Z.mod_same. apply Z.pow_nonzero; lia.
Qed.

Lemma land_pred_not_pow2 (v : Z) :
  0 < v -> v <> 2 ^ Z.log2 v -> Z.land v (v - 1) <> 0.
Proof.
  intros Hpos Hneq Hzero.
  destruct (Z.log2_spec v Hpos) as [Hlo Hhi].
  assert (Hk : 0 <= Z.log2 v) by apply Z.log2_nonneg.
  assert (Hpred : Z.log2 (v - 1) = Z.log2 v).
  { apply Z.log2_unique; [exact Hk | lia]. }
  assert (Hbit : Z.testbit (Z.land v (v - 1)) (Z.log2 v) = true).
  { rewrite Z.land_spec, (Z.bit_log2 v) by lia.
    rewrite <- Hpred, Z.bit_log2 by lia. reflexivity. }
  rewrite Hzero, Z.bits_0 in Hbit. discriminate.
Qed.

(** [log2Ceil] is the ceiling of the binary logarithm on every positive
    [int]. *)
Lemma log2Ceil_log2_up (v : Z) :
  0 < v < 2 ^ 63 -> log2Ceil v = Z.log2_up v.
Proof.
  intros Hv. unfold log2Ceil.
  rewrite int64_small by lia.
  rewrite loop_log2 by lia.
  pose proof (Z.le_log2_log2_up v) as Hle.
  pose proof (Z.le_log2_up_succ_log2 v) as Hsucc.
  pose proof (Z.log2_log2_up_exact v ltac:(lia)) as Hexact.
  destruct (Z.eq_dec v (2 ^ Z.log2 v)) as [Hpow | Hnpow].
  - assert (Heq : Z.log2 v = Z.log2_up v) by (apply Hexact; eauto).
    rewrite Hpow at 1 2.
    rewrite land_pred_pow2 by apply Z.log2_nonneg.
    simpl. lia.
  - destruct (Z.eqb_spec (Z.land v (v - 1)) 0) as [Hzero | _].
    { exfalso. revert Hzero. apply land_pred_not_pow2; lia. }
    assert (Hne : Z.log2 v <> Z.log2_up v).
    { intros Heq. apply Hexact in Heq. destruct Heq as [b Hb].
      apply Hnpow. rewrite Hb.
      destruct (Z.le_gt_cases 0 b) as [Hb0 | Hb0].
      - rewrite Z.log2_pow2 by exact Hb0. reflexivity.
      - rewrite Z.pow_neg_r in Hb by lia. lia. }
    lia.
Qed.

End Log2Ceil.

(** ** Tree construction *)
Module Build.
Import MerkleTree.

#[local] Ltac Zify.zify_post_hook ::= Z.to_euclidean_division_equations.

(** The row above [pre]: neighbours are combined, a lone last node is
    hashed on its own. *)
Fixpoint pairUp (pre : list Node) : list Node :=
  match pre with
  | l :: r :: rest => computeNode l r :: pairUp rest
  | [l] => [truncatedHash (data l)]
  | [] => []
  end.

(** The combined pairs alone. *)
Fixpoint pairsOnly (pre : list Node) : list Node :=
  match pre with
  | l :: r :: rest => computeNode l r :: pairsOnly rest
  | _ => []
  end.

Lemma pair_ind (A : Type) (P : list A -> Prop) :
  P [] -> (forall a, P [a]) -> (forall a b l, P l -> P (a :: b :: l)) ->
  forall l, P l.
Proof.
  intros Hnil Hone Hstep.
  assert (Hboth : forall l, P l /\ forall a, P (a :: l)).
  { induction l as [| b l [IHl IHcons]]; split; auto. }
  intros l. apply Hboth.
Qed.

Lemma length_pairsOnly (pre : list Node) :
  length (pairsOnly pre) = (length pre / 2)%nat.
Proof.
  induction pre as [| a | a b l IH] using pair_ind; [reflexivity | reflexivity |].
  cbn [pairsOnly length]. rewrite IH. lia.
Qed.

Lemma length_pairUp (pre : list Node) :
  length (pairUp pre) = ((length pre + 1) / 2)%nat.
Proof.
  induction pre as [| a | a b l IH] using pair_ind; [reflexivity | reflexivity |].
  cbn [pairUp length]. rewrite IH. lia.
Qed.

Lemma pairUp_pairsOnly_even (pre : list Node) :
  (length pre mod 2 = 0)%nat -> pairUp pre = pairsOnly pre.
Proof.
  induction pre as [| a | a b l IH] using pair_ind; intros Hlen.
  - reflexivity.
  - discriminate.
  - cbn [pairUp pairsOnly]. f_equal. apply IH.
    cbn [length] in Hlen. lia.
Qed.

Lemma pairUp_pairsOnly_odd (pre : list Node) (lone : Node) :
  (length pre mod 2 = 1)%nat -> last pre = Some lone ->
  pairUp pre = pairsOnly pre ++ [truncatedHash (data lone)].
Proof.
  induction pre as [| a | a b l IH] using pair_ind; intros Hlen Hlast.
  - discriminate.
  - cbn in Hlast. injection Hlast as ->. reflexivity.
  - cbn [pairUp pairsOnly]. rewrite <- app_comm_cons. f_equal. apply IH.
    + cbn [length] in Hlen. lia.
    + destruct l as [| c l]; [cbn [length] in Hlen; lia |].
      exact Hlast.
Qed.

Lemma halfCeil_nat (n : nat) : halfCeil (Z.of_nat n) = Z.of_nat ((n + 1) / 2).
Proof.
  unfold halfCeil. destruct (Z.eqb_spec (Z.rem (Z.of_nat n) 2) 0); lia.
Qed.

Lemma assign_app_head (A : Type) (done rest : list A) (x y : A) :
  assign (done ++ x :: rest) (length done) y = Ok (done ++ y :: rest).
Proof.
  unfold assign. rewrite length_app. cbn [length].
  destruct (decide (length done < length done + S (length rest))%nat); [| lia].
  f_equal. rewrite insert_app_r_alt by lia.
  rewrite Nat.sub_diag. reflexivity.
Qed.

Lemma assignZ_nat (A : Type) (l : list A) (i : nat) (a : A) :
  assignZ l (Z.of_nat i) a = assign l i a.
Proof.
  unfold assignZ. destruct (Z.ltb_spec (Z.of_nat i) 0); [lia |].
  rewrite Nat2Z.id. reflexivity.
Qed.

Lemma indexZ_nat (A : Type) (l : list A) (i : nat) :
  indexZ l (Z.of_nat i) = index l i.
Proof.
  unfold indexZ. destruct (Z.ltb_spec (Z.of_nat i) 0); [lia |].
  rewrite Nat2Z.id. reflexivity.
Qed.

(** The inner loop fills the slots after [done] with the combined pairs. *)
Lemma pairLoop_spec (rest : list Node) :
  forall done slots : list Node,
    (length (pairsOnly rest) <= length slots)%nat ->
    pairLoop rest (2 * len done) (done ++ slots)
    = Ok (done ++ pairsOnly rest ++ drop (length (pairsOnly rest)) slots).
Proof.
  induction rest as [| a | a b rest IH] using pair_ind; intros done slots Hlen.
  - reflexivity.
  - reflexivity.
  - cbn [pairLoop pairsOnly] in *.
    destruct slots as [| s slots]; [cbn [length] in Hlen; lia |].
    replace (Z.quot (2 * len done) 2) with (Z.of_nat (length done))
      by (unfold len; lia).
    rewrite assignZ_nat, assign_app_head. cbn [bind].
    replace (2 * len done + 2) with (2 * len (done ++ [computeNode a b]))
      by (unfold len; rewrite length_app; cbn [length]; lia).
    replace (done ++ computeNode a b :: slots)
      with ((done ++ [computeNode a b]) ++ slots)
      by (rewrite <- app_assoc; reflexivity).
    rewrite IH by (cbn [length] in Hlen; lia).
    rewrite <- app_assoc. reflexivity.
Qed.

(** One pass of the outer loop never panics and yields [pairUp]. *)
Lemma buildLevel_pairUp (pre : list Node) : buildLevel pre = Ok (pairUp pre).
Proof.
  unfold buildLevel, make, len.
  rewrite halfCeil_nat.
  set (half := ((length pre + 1) / 2)%nat).
  destruct (Z.ltb_spec (Z.of_nat half) 0) as [Hneg | _]; [lia |].
  cbn [bind]. rewrite Nat2Z.id.
  pose proof (pairLoop_spec pre [] (repeat zeroNode half)) as Hloop.
  cbn [app] in Hloop. change (2 * len []) with 0 in Hloop.
  rewrite Hloop by (rewrite length_pairsOnly, repeat_length; subst half; lia).
  cbn [bind]. clear Hloop.
  rewrite length_pairsOnly.
  destruct (Z.eqb_spec (Z.rem (Z.of_nat (length pre)) 2) 1) as [Hodd | Heven].
  - assert (Hlast : exists lone, last pre = Some lone).
    { destruct (last pre) as [lone |] eqn:Hlast; [eauto |].
      apply last_None in Hlast. subst pre. cbn [length] in Hodd. lia. }
    destruct Hlast as [lone Hlast].
    rewrite (pairUp_pairsOnly_odd pre lone) by (lia || exact Hlast).
    rewrite last_lookup in Hlast.
    replace (Z.of_nat (length pre) - 1) with (Z.of_nat (Init.Nat.pred (length pre))) by lia.
    rewrite indexZ_nat. unfold index. rewrite Hlast. cbn [bind].
    replace (Z.of_nat half - 1) with (Z.of_nat (length (pairsOnly pre)))
      by (rewrite length_pairsOnly; subst half; lia).
    replace half with (S (length pre / 2)) by (subst half; lia).
    cbn [repeat]. rewrite repeat_cons, drop_app_length'
      by (rewrite repeat_length; reflexivity).
    rewrite assignZ_nat, assign_app_head. reflexivity.
  - rewrite pairUp_pairsOnly_even by lia.
    replace (drop (length pre / 2) (repeat zeroNode half)) with (@nil Node).
    + rewrite app_nil_r. reflexivity.
    + symmetry. apply drop_ge. rewrite repeat_length. subst half. lia.
Qed.

(** The [k] rows above [pre], the root-most first. *)
Fixpoint rowsAbove (k : nat) (pre : list Node) : list (list Node) :=
  match k with
  | O => []
  | S k' => rowsAbove k' (pairUp pre) ++ [pairUp pre]
  end.

Lemma length_rowsAbove (k : nat) (pre : list Node) : length (rowsAbove k pre) = k.
Proof.
  revert pre. induction k as [| k IH]; intros pre; [reflexivity |].
  cbn [rowsAbove]. rewrite length_app, IH. cbn [length]. lia.
Qed.

(** The outer loop overwrites the first [k] rows, whatever they held. *)
Lemma growLoop_spec (k : nat) :
  forall (pre : list Node) (top rest : list (list Node)),
    length top = k ->
    growLoop k pre (top ++ rest) = Ok (rowsAbove k pre ++ rest).
Proof.
  induction k as [| k IH]; intros pre top rest Hlen.
  - destruct top; [reflexivity | discriminate].
  - destruct top as [| x top _] using rev_ind; [discriminate |].
    rewrite length_app in Hlen. cbn [length] in Hlen.
    cbn [growLoop rowsAbove]. rewrite buildLevel_pairUp. cbn [bind].
    rewrite <- app_assoc. cbn [app].
    replace k with (length top) at 1 by lia.
    rewrite assign_app_head. cbn [bind].
    rewrite IH by lia.
    rewrite <- app_assoc. reflexivity.
Qed.

(** The largest leaf count for which [1 << log2Ceil(n)] fits an [int]. *)
Definition maxLeafs : Z := 2 ^ 62.

Lemma shl1_small (i : Z) : 0 <= i <= 62 -> shl1 i = 2 ^ i.
Proof.
  intros Hi. unfold shl1. rewrite Z.shiftl_1_l.
  assert (Hpow : 0 < 2 ^ i) by (apply Z.pow_pos_nonneg; lia).
  assert (Hle : 2 ^ i <= 2 ^ 62) by (apply Z.pow_le_mono_r; lia).
  apply int64_small. lia.
Qed.

Lemma bareLoop_ok (n : nat) :
  forall (i : Z) (rows : list (list Node)),
    0 <= i -> i + Z.of_nat n <= 63 -> i + Z.of_nat n <= len rows ->
    exists rows', bareLoop n i rows = Ok rows' /\ length rows' = length rows.
Proof.
  induction n as [| n IH]; intros i rows Hi Hmax Hlen.
  - exists rows. split; reflexivity.
  - cbn [bareLoop]. unfold make.
    rewrite shl1_small by lia.
    assert (Hpow : 0 < 2 ^ i) by (apply Z.pow_pos_nonneg; lia).
    destruct (Z.ltb_spec (2 ^ i) 0) as [Hneg | _]; [lia |].
    cbn [bind]. unfold assignZ, assign, len in *.
    destruct (Z.ltb_spec i 0) as [Hneg | _]; [lia |].
    destruct (decide (Z.to_nat i < length rows)%nat) as [_ | Hout]; [| lia].
    cbn [bind].
    destruct (IH (i + 1) (<[Z.to_nat i := repeat zeroNode (Z.to_nat (2 ^ i))]> rows))
      as (rows' & Hrun & Hlen'); [lia | lia | rewrite length_insert; lia |].
    exists rows'. split; [exact Hrun |].
    rewrite Hlen', length_insert. reflexivity.
Qed.

Lemma NewBareTree_ok (elements : Z) :
  0 <= log2Ceil elements <= 62 ->
  exists tree, NewBareTree elements = Ok tree
               /\ len (nodes tree) = log2Ceil elements + 1.
Proof.
  intros Hlog. unfold NewBareTree, make.
  destruct (Z.ltb_spec (1 + log2Ceil elements) 0) as [Hneg | _]; [lia |].
  cbn [bind].
  destruct (bareLoop_ok (Z.to_nat (log2Ceil elements + 1)) 0
              (repeat [] (Z.to_nat (1 + log2Ceil elements))))
    as (rows' & Hrun & Hlen); [lia | lia | unfold len; rewrite repeat_length; lia |].
  rewrite Hrun. cbn [bind]. eexists. split; [reflexivity |].
  cbn [nodes]. unfold len. rewrite Hlen, repeat_length. lia.
Qed.

Lemma log2Ceil_zero : log2Ceil 0 = 0.
Proof. vm_compute. reflexivity. Qed.

Lemma log2Ceil_bounds (n : Z) : 0 <= n <= maxLeafs -> 0 <= log2Ceil n <= 62.
Proof.
  unfold maxLeafs. intros Hn.
  destruct (Z.eq_dec n 0) as [-> | Hpos]; [rewrite log2Ceil_zero; lia |].
  rewrite Log2Ceil.log2Ceil_log2_up by lia.
  split; [apply Z.log2_up_nonneg |].
  apply Z.log2_up_le_pow2; lia.
Qed.

(** The number of rows above the leaf row. *)
Definition height (leafs : list Node) : nat := Z.to_nat (log2Ceil (len leafs)).

(** The tree over [leafs], row by row. *)
Definition treeOf (leafs : list Node) : TreeData :=
  mkTree (rowsAbove (height leafs) leafs ++ [leafs]).

(** [growTreeHashedLeafs] returns normally and every row it allocated is
    replaced by the computed one. *)
Lemma growTreeHashedLeafs_treeOf (leafs : list Node) :
  len leafs <= maxLeafs -> growTreeHashedLeafs leafs = Ok (treeOf leafs).
Proof.
  intros Hmax.
  assert (Hlog : 0 <= log2Ceil (len leafs) <= 62)
    by (apply log2Ceil_bounds; unfold len in *; lia).
  unfold growTreeHashedLeafs.
  destruct (NewBareTree_ok (len leafs) Hlog) as (tree & Hnew & Hlen).
  rewrite Hnew. cbn [bind].
  destruct (nodes tree) as [| x top _] using rev_ind.
  { change (len []) with 0 in Hlen. lia. }
  change (len (top ++ [x])) with (Z.of_nat (length (top ++ [x]))) in Hlen.
  rewrite length_app in Hlen. cbn [length] in Hlen.
  replace (log2Ceil (len leafs)) with (Z.of_nat (length top)) at 1 by lia.
  rewrite assignZ_nat, assign_app_head. cbn [bind].
  rewrite growLoop_spec by lia.
  reflexivity.
Qed.

Lemma GrowTree_treeOf (leafData : list (list byte)) :
  leafData <> [] -> len leafData <= maxLeafs ->
  GrowTree leafData = Ok (treeOf (hashList leafData)).
Proof.
  intros Hne Hmax. unfold GrowTree.
  destruct (Z.eqb_spec (len leafData) 0) as [Hzero | _].
  { destruct leafData; [congruence | unfold len in Hzero; cbn [length] in Hzero; lia]. }
  apply growTreeHashedLeafs_treeOf.
  unfold hashList, len in *. rewrite length_map. exact Hmax.
Qed.

(** *** Rows and widths *)

(** The row of the tree over [leafs] at level [l]. *)
Definition rowAt (leafs : list Node) (l : nat) : list Node :=
  Nat.iter (height leafs - l) pairUp leafs.

Lemma rowsAbove_lookup (k : nat) :
  forall (pre : list Node) (l : nat),
    (l < k)%nat -> rowsAbove k pre !! l = Some (Nat.iter (k - l) pairUp pre).
Proof.
  induction k as [| k IH]; intros pre l Hl; [lia |].
  cbn [rowsAbove].
  destruct (decide (l < k)%nat) as [Hlt | Hge].
  - rewrite lookup_app_l by (rewrite length_rowsAbove; exact Hlt).
    rewrite IH by exact Hlt.
    replace (S k - l)%nat with (S (k - l)) by lia.
    rewrite Nat.iter_succ_r. reflexivity.
  - assert (l = k) as -> by lia.
    rewrite lookup_app_r by (rewrite length_rowsAbove; lia).
    rewrite length_rowsAbove, Nat.sub_diag.
    replace (S k - k)%nat with 1%nat by lia. reflexivity.
Qed.

Lemma nodes_treeOf_lookup (leafs : list Node) (l : nat) :
  (l <= height leafs)%nat -> nodes (treeOf leafs) !! l = Some (rowAt leafs l).
Proof.
  intros Hl. unfold treeOf, rowAt. cbn [nodes].
  destruct (decide (l < height leafs)%nat) as [Hlt | Hge].
  - rewrite lookup_app_l by (rewrite length_rowsAbove; exact Hlt).
    apply rowsAbove_lookup. exact Hlt.
  - assert (l = height leafs) as -> by lia.
    rewrite lookup_app_r by (rewrite length_rowsAbove; lia).
    rewrite length_rowsAbove, Nat.sub_diag. reflexivity.
Qed.

Lemma nodes_treeOf_length (leafs : list Node) :
  length (nodes (treeOf leafs)) = S (height leafs).
Proof.
  unfold treeOf. cbn [nodes]. rewrite length_app, length_rowsAbove.
  cbn [length]. lia.
Qed.

Lemma rowAt_leafs (leafs : list Node) : rowAt leafs (height leafs) = leafs.
Proof. unfold rowAt. rewrite Nat.sub_diag. reflexivity. Qed.

(** Each row is built from the row below it. *)
Lemma rowAt_pairUp (leafs : list Node) (l : nat) :
  (S l <= height leafs)%nat -> rowAt leafs l = pairUp (rowAt leafs (S l)).
Proof.
  intros Hl. unfold rowAt.
  replace (height leafs - l)%nat with (S (height leafs - S l)) by lia.
  reflexivity.
Qed.

(** The ceiling of [a / b]. *)
Definition ceilDiv (a b : Z) : Z := (a + b - 1) / b.

Lemma ceilDiv_half (n p : Z) :
  0 < p -> (ceilDiv n p + 1) / 2 = ceilDiv n (p * 2).
Proof.
  intros Hp. unfold ceilDiv.
  rewrite <- Z.div_div by lia.
  f_equal.
  replace (n + p * 2 - 1) with (n + p - 1 + 1 * p) by lia.
  rewrite Z.div_add by lia. reflexivity.
Qed.

Lemma len_pairUp (pre : list Node) : len (pairUp pre) = (len pre + 1) / 2.
Proof. unfold len. rewrite length_pairUp. lia. Qed.

Lemma len_iter_pairUp (k : nat) (leafs : list Node) :
  len (Nat.iter k pairUp leafs) = ceilDiv (len leafs) (2 ^ Z.of_nat k).
Proof.
  induction k as [| k IH].
  - cbn [Nat.iter nat_rect]. unfold ceilDiv. change (2 ^ Z.of_nat 0) with 1.
    rewrite Z.div_1_r. lia.
  - cbn [Nat.iter nat_rect]. rewrite len_pairUp.
    change (nat_rect _ leafs (fun _ => pairUp) k) with (Nat.iter k pairUp leafs).
    rewrite IH, Nat2Z.inj_succ, Z.pow_succ_r by lia.
    rewrite ceilDiv_half by (apply Z.pow_pos_nonneg; lia).
    f_equal. lia.
Qed.

Lemma len_rowAt (leafs : list Node) (l : nat) :
  len (rowAt leafs l) = ceilDiv (len leafs) (2 ^ Z.of_nat (height leafs - l)).
Proof. apply len_iter_pairUp. Qed.

Lemma Depth_treeOf (leafs : list Node) :
  Depth (treeOf leafs) = Z.of_nat (height leafs) + 1.
Proof. unfold Depth, len. rewrite nodes_treeOf_length. lia. Qed.

Lemma height_log2_up (leafs : list Node) :
  leafs <> [] -> len leafs <= maxLeafs ->
  Z.of_nat (height leafs) = Z.log2_up (len leafs).
Proof.
  intros Hne Hmax. unfold height, maxLeafs in *.
  assert (Hpos : 0 < len leafs).
  { destruct leafs; [congruence | unfold len; cbn [length]; lia]. }
  rewrite Log2Ceil.log2Ceil_log2_up by lia.
  rewrite Z2Nat.id by apply Z.log2_up_nonneg. reflexivity.
Qed.

End Build.

(** ** Proof extraction on a grown tree *)
Module Extract.
Import MerkleTree Build.

#[local] Ltac Zify.zify_post_hook ::= Z.to_euclidean_division_equations.

(** The node stored at [(l, i)], and the zero [Node] where row [l] has no
    such position. *)
Definition nodeAt (d : TreeData) (l : nat) (i : Z) : Node :=
  match nodes d !! l with
  | Some row => if i <? 0 then zeroNode else default zeroNode (row !! Z.to_nat i)
  | None => zeroNode
  end.

(** What [ConstructProof] records next to position [i] of [row]. *)
Definition sibOrZero (row : list Node) (i : Z) : Node :=
  if len row >? getSiblingIdx i
  then default zeroNode (row !! Z.to_nat (getSiblingIdx i))
  else zeroNode.

(** The siblings of [(c, i)] and of its ancestors, the one at level 1
    first. *)
Fixpoint siblings (leafs : list Node) (c : nat) (i : Z) : list Node :=
  match c with
  | O => []
  | S c' => siblings leafs c' (Z.quot i 2) ++ [sibOrZero (rowAt leafs (S c')) i]
  end.

Lemma length_siblings (leafs : list Node) (c : nat) :
  forall i, length (siblings leafs c i) = c.
Proof.
  induction c as [| c IH]; intros i; [reflexivity |].
  cbn [siblings]. rewrite length_app, IH. cbn [length]. lia.
Qed.

Lemma getSiblingIdx_nonneg (i : Z) : 0 <= i -> 0 <= getSiblingIdx i.
Proof.
  intros Hi. unfold getSiblingIdx.
  destruct (Z.eqb_spec (Z.rem i 2) 0); lia.
Qed.

Lemma assign_app_at (A : Type) (done rest : list A) (x y : A) (i : nat) :
  i = length done -> assign (done ++ x :: rest) i y = Ok (done ++ y :: rest).
Proof. intros ->. apply assign_app_head. Qed.

Lemma parent_in_range (leafs : list Node) (c : nat) (i : Z) :
  (S c <= height leafs)%nat -> 0 <= i < len (rowAt leafs (S c)) ->
  0 <= Z.quot i 2 < len (rowAt leafs c).
Proof.
  intros Hc Hi. rewrite (rowAt_pairUp leafs c Hc), len_pairUp. lia.
Qed.

(** The loop of [ConstructProof] fills the slots below [c], which it found
    zeroed, and leaves the others alone. *)
Lemma proofLoop_spec (leafs : list Node) (c : nat) :
  forall (i : Z) (tail : list Node),
    (c <= height leafs)%nat ->
    0 <= i -> ((0 < c)%nat -> i < len (rowAt leafs c)) ->
    proofLoop (treeOf leafs) c i (repeat zeroNode c ++ tail)
    = Ok (siblings leafs c i ++ tail).
Proof.
  induction c as [| c IH]; intros i tail Hc Hi Hrow; [reflexivity |].
  specialize (Hrow ltac:(lia)).
  cbn [proofLoop siblings]. unfold index at 1.
  rewrite nodes_treeOf_lookup by exact Hc. cbn [bind].
  set (row := rowAt leafs (S c)) in *.
  destruct (Z.leb_spec (len row) i) as [Hout | _]; [lia |].
  assert (Hstore :
    (if len row >? getSiblingIdx i
     then let! sibling := indexZ row (getSiblingIdx i) in
          assign (repeat zeroNode (S c) ++ tail) c sibling
     else Ok (repeat zeroNode (S c) ++ tail))
    = Ok (repeat zeroNode c ++ sibOrZero row i :: tail)).
  { unfold sibOrZero.
    pose proof (getSiblingIdx_nonneg i Hi) as Hsib.
    cbn [repeat]. rewrite repeat_cons, <- app_assoc. cbn [app].
    destruct (Z.gtb_spec (len row) (getSiblingIdx i)) as [Hin | Hbeyond];
      [| reflexivity].
    unfold indexZ, index.
    destruct (Z.ltb_spec (getSiblingIdx i) 0) as [Hneg | _]; [lia |].
    destruct (row !! Z.to_nat (getSiblingIdx i)) as [s |] eqn:Hlook.
    - cbn [bind default]. apply assign_app_at. rewrite repeat_length. reflexivity.
    - apply lookup_ge_None in Hlook. unfold len in Hin. lia. }
  rewrite Hstore. cbn [bind].
  rewrite IH.
  - rewrite <- app_assoc. reflexivity.
  - lia.
  - lia.
  - intros Hpos. apply parent_in_range; [exact Hc | subst row; lia].
Qed.

Lemma ConstructProof_treeOf (leafs : list Node) (lvl : nat) (idx : Z) :
  (1 <= lvl <= height leafs)%nat -> 0 <= idx < len (rowAt leafs lvl) ->
  ConstructProof (treeOf leafs) (Z.of_nat lvl) idx
  = Ok (mkProof (siblings leafs lvl idx) (Z.of_nat lvl) idx).
Proof.
  intros Hlvl Hidx. unfold ConstructProof.
  rewrite Depth_treeOf.
  destruct (Z.ltb_spec (Z.of_nat lvl) 1) as [Hlow | _]; [lia |].
  destruct (Z.geb_spec (Z.of_nat lvl) (Z.of_nat (height leafs) + 1)) as [Hhigh | _]; [lia |].
  destruct (Z.ltb_spec idx 0) as [Hneg | _]; [lia |].
  cbn [orb]. unfold make.
  destruct (Z.ltb_spec (Z.of_nat lvl) 0) as [Hneg | _]; [lia |].
  cbn [bind]. rewrite Nat2Z.id.
  rewrite <- (app_nil_r (repeat zeroNode lvl)).
  rewrite proofLoop_spec by lia.
  cbn [bind]. rewrite app_nil_r. reflexivity.
Qed.

(** An index at or beyond the row's width is refused. *)
Lemma ConstructProof_beyond (leafs : list Node) (lvl : nat) (idx : Z) :
  (1 <= lvl <= height leafs)%nat -> len (rowAt leafs lvl) <= idx ->
  exists e, ConstructProof (treeOf leafs) (Z.of_nat lvl) idx = Err e.
Proof.
  intros Hlvl Hidx. unfold ConstructProof.
  rewrite Depth_treeOf.
  destruct (Z.ltb_spec (Z.of_nat lvl) 1) as [Hlow | _]; [lia |].
  destruct (Z.geb_spec (Z.of_nat lvl) (Z.of_nat (height leafs) + 1)) as [Hhigh | _]; [lia |].
  assert (Hpos : 0 <= idx) by (unfold len in Hidx; lia).
  destruct (Z.ltb_spec idx 0) as [Hneg | _]; [lia |].
  cbn [orb]. unfold make.
  destruct (Z.ltb_spec (Z.of_nat lvl) 0) as [Hneg | _]; [lia |].
  cbn [bind]. rewrite Nat2Z.id.
  destruct lvl as [| above]; [lia |].
  cbn [proofLoop]. unfold index at 1.
  rewrite nodes_treeOf_lookup by lia. cbn [bind].
  destruct (Z.leb_spec (len (rowAt leafs (S above))) idx) as [_ | Hin]; [| lia].
  cbn [bind]. eauto.
Qed.

End Extract.

(** ** Replaying an extracted proof *)
Module Replay.
Import MerkleTree Build Extract.

#[local] Ltac Zify.zify_post_hook ::= Z.to_euclidean_division_equations.

(** A node that cannot be mistaken for the marker of an absent sibling. *)
Definition nonZero (n : Node) : Prop := data n <> data zeroNode.

#[global] Instance nonZero_decision (n : Node) : Decision (nonZero n).
Proof. unfold nonZero. apply _. Defined.

Lemma getSiblingIdx_shift (z : Z) :
  0 <= z -> getSiblingIdx (z + 2) = getSiblingIdx z + 2.
Proof.
  intros Hz. unfold getSiblingIdx.
  destruct (Z.eqb_spec (Z.rem (z + 2) 2) 0), (Z.eqb_spec (Z.rem z 2) 0); lia.
Qed.

Lemma foldStep_shift (node sibling : Node) (z : Z) :
  0 <= z -> foldStep node sibling (z + 2) = foldStep node sibling z.
Proof.
  intros Hz. unfold foldStep. rewrite getSiblingIdx_shift by exact Hz.
  replace (Z.rem (getSiblingIdx z + 2) 2) with (Z.rem (getSiblingIdx z) 2)
    by (pose proof (getSiblingIdx_nonneg z Hz); lia).
  reflexivity.
Qed.

Lemma sibOrZero_shift (a b : Node) (l : list Node) (j : nat) :
  sibOrZero (a :: b :: l) (Z.of_nat (S (S j))) = sibOrZero l (Z.of_nat j).
Proof.
  unfold sibOrZero, len. cbn [length].
  replace (Z.of_nat (S (S j))) with (Z.of_nat j + 2) by lia.
  rewrite getSiblingIdx_shift by lia.
  pose proof (getSiblingIdx_nonneg (Z.of_nat j) ltac:(lia)) as Hsib.
  replace (Z.to_nat (getSiblingIdx (Z.of_nat j) + 2))
    with (S (S (Z.to_nat (getSiblingIdx (Z.of_nat j))))) by lia.
  cbn [lookup list_lookup].
  destruct (Z.gtb_spec (Z.of_nat (S (S (length l)))) (getSiblingIdx (Z.of_nat j) + 2)),
           (Z.gtb_spec (Z.of_nat (length l)) (getSiblingIdx (Z.of_nat j)));
    try lia; reflexivity.
Qed.

Lemma sibOrZero_left (a b : Node) (l : list Node) :
  sibOrZero (a :: b :: l) 0 = b.
Proof.
  unfold sibOrZero, len. cbn [length].
  change (getSiblingIdx 0) with 1.
  destruct (Z.gtb_spec (Z.of_nat (S (S (length l)))) 1); [reflexivity | lia].
Qed.

Lemma sibOrZero_right (a b : Node) (l : list Node) :
  sibOrZero (a :: b :: l) 1 = a.
Proof.
  unfold sibOrZero, len. cbn [length].
  change (getSiblingIdx 1) with 0.
  destruct (Z.gtb_spec (Z.of_nat (S (S (length l)))) 0); [reflexivity | lia].
Qed.

(** Folding a node with what the extractor recorded next to it gives its
    parent in the row above. *)
Lemma foldStep_parent (pre : list Node) :
  forall (j : nat) (node : Node),
    pre !! j = Some node -> Forall nonZero pre ->
    pairUp pre !! (j / 2)%nat
    = Some (foldStep node (sibOrZero pre (Z.of_nat j)) (Z.of_nat j)).
Proof.
  induction pre as [| a | a b l IH] using pair_ind; intros j node Hlook Hnz.
  - discriminate.
  - destruct j as [| j]; [| discriminate].
    injection Hlook as ->. reflexivity.
  - apply Forall_cons in Hnz as [Ha Hnz].
    apply Forall_cons in Hnz as [Hb Hnz].
    destruct j as [| [| j]].
    + injection Hlook as ->.
      change (Z.of_nat 0) with 0. rewrite sibOrZero_left.
      unfold foldStep.
      destruct (decide (data b = repeat x00 digestBytes)) as [Hzero | _];
        [exfalso; apply Hb; exact Hzero | reflexivity].
    + injection Hlook as ->.
      change (Z.of_nat 1) with 1. rewrite sibOrZero_right.
      unfold foldStep.
      destruct (decide (data a = repeat x00 digestBytes)) as [Hzero | _];
        [exfalso; apply Ha; exact Hzero | reflexivity].
    + cbn [lookup list_lookup] in Hlook.
      rewrite sibOrZero_shift.
      replace (Z.of_nat (S (S j))) with (Z.of_nat j + 2) by lia.
      rewrite foldStep_shift by lia.
      replace (S (S j) / 2)%nat with (S (j / 2)) by lia.
      cbn [pairUp lookup list_lookup].
      apply IH; assumption.
Qed.

Lemma ceilDiv_one (n p : Z) : 0 < n <= p -> ceilDiv n p = 1.
Proof.
  intros Hn. unfold ceilDiv. symmetry.
  apply (Z.div_unique _ _ 1 (n - 1)); lia.
Qed.

Lemma leafs_fit_height (leafs : list Node) :
  leafs <> [] -> len leafs <= maxLeafs ->
  0 < len leafs <= 2 ^ Z.of_nat (height leafs).
Proof.
  intros Hne Hmax.
  assert (Hpos : 0 < len leafs).
  { destruct leafs; [congruence | unfold len; cbn [length]; lia]. }
  split; [exact Hpos |].
  rewrite height_log2_up by assumption.
  apply Z.log2_log2_up_spec. exact Hpos.
Qed.

(** The top row holds the root alone. *)
Lemma len_root_row (leafs : list Node) :
  leafs <> [] -> len leafs <= maxLeafs -> len (rowAt leafs 0) = 1.
Proof.
  intros Hne Hmax. rewrite len_rowAt, Nat.sub_0_r.
  apply ceilDiv_one. apply leafs_fit_height; assumption.
Qed.

(** Replaying the recorded siblings from a stored node climbs through the
    stored ancestors up to the root. *)
Lemma validateLoop_root (leafs : list Node) (root : Node) :
  leafs <> [] -> len leafs <= maxLeafs ->
  rowAt leafs 0 !! 0%nat = Some root ->
  (forall l, (1 <= l <= height leafs)%nat -> Forall nonZero (rowAt leafs l)) ->
  forall (c : nat) (i : Z) (node : Node) (tail : list Node) (lv ix : Z)
         (parent : option Node),
    (1 <= c <= height leafs)%nat -> 0 <= i ->
    rowAt leafs c !! Z.to_nat i = Some node ->
    validateLoop (mkProof (siblings leafs c i ++ tail) lv ix) c node i parent
    = Ok (Some root).
Proof.
  intros Hne Hmax Hroot Hnz.
  induction c as [| c IH]; intros i node tail lv ix parent Hc Hi Hnode; [lia |].
  cbn [validateLoop siblings path]. unfold index.
  rewrite <- app_assoc. cbn [app].
  rewrite lookup_app_r by (rewrite length_siblings; lia).
  rewrite length_siblings, Nat.sub_diag. cbn [lookup list_lookup bind].
  pose proof (foldStep_parent (rowAt leafs (S c)) (Z.to_nat i) node Hnode
                (Hnz (S c) Hc)) as Hparent.
  rewrite Z2Nat.id in Hparent by exact Hi.
  rewrite <- rowAt_pairUp in Hparent by lia.
  replace (Z.to_nat i / 2)%nat with (Z.to_nat (Z.quot i 2)) in Hparent by lia.
  set (up := foldStep node (sibOrZero (rowAt leafs (S c)) i) i) in *.
  destruct c as [| c'].
  - cbn [validateLoop]. f_equal. f_equal.
    assert (Hzero : Z.to_nat (Z.quot i 2) = 0%nat).
    { apply lookup_lt_Some in Hparent.
      pose proof (len_root_row leafs Hne Hmax) as Hone.
      unfold len in Hone. lia. }
    rewrite Hzero in Hparent. congruence.
  - pose proof (IH (Z.quot i 2) up
                  (sibOrZero (rowAt leafs (S (S c'))) i :: tail) lv ix (Some up)) as Hrec.
    cbn [path] in Hrec. apply Hrec; [lia | lia | exact Hparent].
Qed.

End Replay.

(** ** The Merkle tree: statements about the API *)
Module MerkleTreeSpec.
Import MerkleTree Build Extract Replay.

#[local] Ltac Zify.zify_post_hook ::= Z.to_euclidean_division_equations.

(** The number of nodes stored at level [l]. *)
Definition width (d : TreeData) (l : Z) : Z :=
  match nodes d !! Z.to_nat l with
  | Some row => len row
  | None => 0
  end.

(** No stored node is the all-zero marker of an absent sibling. *)
Definition noZeroNode (d : TreeData) : Prop := Forall (Forall nonZero) (nodes d).

Lemma GrowTree_inv (leafData : list (list byte)) (d : TreeData) :
  len leafData <= maxLeafs -> GrowTree leafData = Ok d ->
  hashList leafData <> [] /\ len (hashList leafData) <= maxLeafs
  /\ d = treeOf (hashList leafData).
Proof.
  intros Hmax Hgrow.
  assert (Hne : leafData <> []).
  { intros ->. discriminate Hgrow. }
  rewrite GrowTree_treeOf in Hgrow by assumption.
  injection Hgrow as <-.
  unfold hashList, len in *. rewrite length_map.
  split; [| split; [exact Hmax | reflexivity]].
  destruct leafData; [congruence | discriminate].
Qed.

Lemma growTreeHashedLeafs_inv (leafs : list Node) (d : TreeData) :
  len leafs <= maxLeafs -> growTreeHashedLeafs leafs = Ok d -> d = treeOf leafs.
Proof.
  intros Hmax Hgrow. rewrite growTreeHashedLeafs_treeOf in Hgrow by exact Hmax.
  congruence.
Qed.

Lemma treeOf_row (leafs : list Node) (l : nat) (row : list Node) :
  nodes (treeOf leafs) !! l = Some row ->
  (l <= height leafs)%nat /\ row = rowAt leafs l.
Proof.
  intros Hrow.
  assert (Hl : (l <= height leafs)%nat).
  { apply lookup_lt_Some in Hrow. rewrite nodes_treeOf_length in Hrow. lia. }
  rewrite nodes_treeOf_lookup in Hrow by exact Hl.
  split; [exact Hl | congruence].
Qed.

Lemma GetRoot_treeOf (leafs : list Node) (root : Node) :
  GetRoot (treeOf leafs) = Ok root -> rowAt leafs 0 !! 0%nat = Some root.
Proof.
  unfold GetRoot, index. rewrite nodes_treeOf_lookup by lia. cbn [bind].
  destruct (rowAt leafs 0 !! 0%nat); [congruence | discriminate].
Qed.

(** C1. For a tree grown from leaf byte-strings in which no stored node is
    the all-zero marker, and for every position [(lvl, idx)] with
    [1 <= lvl <= Depth - 1] holding a node, [ConstructProof lvl idx]
    succeeds and [ValidateSubtree] accepts that node against the root with
    the returned proof. *)
Theorem round_trip (leafData : list (list byte)) (d : TreeData) (lvl idx : Z)
    (row : list Node) (node root : Node) :
  len leafData <= maxLeafs ->
  GrowTree leafData = Ok d ->
  noZeroNode d ->
  1 <= lvl <= Depth d - 1 ->
  0 <= idx ->
  nodes d !! Z.to_nat lvl = Some row ->
  row !! Z.to_nat idx = Some node ->
  GetRoot d = Ok root ->
  exists p, ConstructProof d lvl idx = Ok p
            /\ ValidateSubtree p node root = Ok true.
Proof.
  intros Hmax Hgrow Hnz Hlvl Hidx Hrow Hnode Hroot.
  destruct (GrowTree_inv leafData d Hmax Hgrow) as (Hne & Hmax' & ->).
  set (leafs := hashList leafData) in *.
  rewrite Depth_treeOf in Hlvl.
  apply treeOf_row in Hrow as [Hl ->].
  apply GetRoot_treeOf in Hroot.
  assert (Hin : 0 <= idx < len (rowAt leafs (Z.to_nat lvl))).
  { apply lookup_lt_Some in Hnode. unfold len. lia. }
  exists (mkProof (siblings leafs (Z.to_nat lvl) idx) lvl idx).
  split.
  - rewrite <- (Z2Nat.id lvl) at 1 3 by lia.
    apply ConstructProof_treeOf; [lia | exact Hin].
  - unfold ValidateSubtree. cbn [MerkleTree.lvl MerkleTree.idx].
    rewrite <- (app_nil_r (siblings leafs (Z.to_nat lvl) idx)).
    rewrite (validateLoop_root leafs root Hne Hmax' Hroot); try lia; try assumption.
    + cbn [bind]. destruct (decide (data root <> data root)); [congruence | reflexivity].
    + intros l Hlrange. unfold noZeroNode in Hnz.
      rewrite Forall_lookup in Hnz. apply (Hnz l).
      apply nodes_treeOf_lookup. lia.
Qed.

(** [d] is the tree the builder returned for the leaf row [leafs]: from
    [growTreeHashedLeafs] directly, or from [GrowTree] on byte strings that
    hash to [leafs]. *)
Inductive grownFrom (leafs : list Node) (d : TreeData) : Prop :=
| grown_hashed : growTreeHashedLeafs leafs = Ok d -> grownFrom leafs d
| grown_bytes (leafData : list (list byte)) :
    leafs = hashList leafData -> GrowTree leafData = Ok d -> grownFrom leafs d.

Lemma grownFrom_treeOf (leafs : list Node) (d : TreeData) :
  len leafs <= maxLeafs -> grownFrom leafs d -> d = treeOf leafs.
Proof.
  intros Hmax [Hgrow | leafData -> Hgrow].
  - apply growTreeHashedLeafs_inv; assumption.
  - apply GrowTree_inv in Hgrow as (_ & _ & ->); [reflexivity |].
    unfold hashList, len in *. rewrite length_map in Hmax. exact Hmax.
Qed.

Lemma siblings_lookup (leafs : list Node) (c : nat) :
  forall (i : Z) (l : nat),
    (1 <= l <= c)%nat -> 0 <= i ->
    siblings leafs c i !! (l - 1)%nat
    = Some (sibOrZero (rowAt leafs l) (i / 2 ^ Z.of_nat (c - l))).
Proof.
  induction c as [| c IH]; intros i l Hl Hi; [lia |].
  cbn [siblings].
  destruct (decide (l = S c)) as [-> | Hne].
  - rewrite lookup_app_r by (rewrite length_siblings; lia).
    rewrite length_siblings.
    replace (S c - 1 - c)%nat with 0%nat by lia.
    rewrite Nat.sub_diag. change (2 ^ Z.of_nat 0) with 1.
    rewrite Z.div_1_r. reflexivity.
  - rewrite lookup_app_l by (rewrite length_siblings; lia).
    rewrite IH by lia. do 2 f_equal.
    replace (Z.of_nat (S c - l)) with (Z.succ (Z.of_nat (c - l))) by lia.
    rewrite Z.pow_succ_r by lia.
    rewrite <- Z.div_div by (try apply Z.pow_pos_nonneg; lia).
    f_equal. lia.
Qed.

Lemma sibOrZero_nodeAt (leafs : list Node) (l : nat) (i : Z) :
  (l <= height leafs)%nat -> 0 <= i ->
  sibOrZero (rowAt leafs l) i = nodeAt (treeOf leafs) l (getSiblingIdx i).
Proof.
  intros Hl Hi. unfold sibOrZero, nodeAt.
  rewrite nodes_treeOf_lookup by exact Hl.
  pose proof (getSiblingIdx_nonneg i Hi) as Hsib.
  destruct (Z.ltb_spec (getSiblingIdx i) 0) as [Hneg | _]; [lia |].
  destruct (Z.gtb_spec (len (rowAt leafs l)) (getSiblingIdx i)) as [_ | Hbeyond];
    [reflexivity |].
  rewrite lookup_ge_None_2; [reflexivity |]. unfold len in Hbeyond. lia.
Qed.

Lemma width_treeOf (leafs : list Node) (l : Z) :
  0 <= l <= Z.of_nat (height leafs) ->
  width (treeOf leafs) l = len (rowAt leafs (Z.to_nat l)).
Proof.
  intros Hl. unfold width. rewrite nodes_treeOf_lookup by lia. reflexivity.
Qed.

(** C7. On a grown tree [ConstructProof lvl idx] returns an error exactly
    when [lvl < 1], [lvl >= Depth], [idx < 0] or [idx >= width lvl], and it
    never panics.  Otherwise it returns a proof for [(lvl, idx)] whose path
    has [lvl] entries; entry [l - 1] is the node stored next to the
    ancestor of [(lvl, idx)] at level [l], and the zero [Node] when that
    position lies beyond the row. *)
Theorem ConstructProof_spec (leafs : list Node) (d : TreeData) (lvl idx : Z) :
  leafs <> [] -> len leafs <= maxLeafs -> grownFrom leafs d ->
  ((exists e, ConstructProof d lvl idx = Err e)
   <-> (lvl < 1 \/ Depth d <= lvl \/ idx < 0 \/ width d lvl <= idx))
  /\ (~ (lvl < 1 \/ Depth d <= lvl \/ idx < 0 \/ width d lvl <= idx) ->
      exists p, ConstructProof d lvl idx = Ok p
        /\ MerkleTree.lvl p = lvl /\ MerkleTree.idx p = idx
        /\ len (path p) = lvl
        /\ forall l, 1 <= l <= lvl ->
             path p !! Z.to_nat (l - 1)
             = Some (nodeAt d (Z.to_nat l) (getSiblingIdx (idx / 2 ^ (lvl - l))))).
Proof.
  intros Hne Hmax Hgrown.
  rewrite (grownFrom_treeOf leafs d Hmax Hgrown). clear d Hgrown.
  rewrite Depth_treeOf.
  assert (Hok : ~ (lvl < 1 \/ Z.of_nat (height leafs) + 1 <= lvl \/ idx < 0
                   \/ width (treeOf leafs) lvl <= idx) ->
                ConstructProof (treeOf leafs) lvl idx
                = Ok (mkProof (siblings leafs (Z.to_nat lvl) idx) lvl idx)).
  { intros Hin.
    assert (Hlvl : 1 <= lvl <= Z.of_nat (height leafs)) by lia.
    rewrite width_treeOf in Hin by lia.
    rewrite <- (Z2Nat.id lvl) at 1 3 by lia.
    apply ConstructProof_treeOf; lia. }
  split.
  - split.
    + intros [e He].
      destruct (Z.lt_ge_cases lvl 1) as [? | Hlow]; [auto |].
      destruct (Z.le_gt_cases (Z.of_nat (height leafs) + 1) lvl) as [? | Hhigh]; [auto |].
      destruct (Z.lt_ge_cases idx 0) as [? | Hpos]; [auto |].
      destruct (Z.le_gt_cases (width (treeOf leafs) lvl) idx) as [? | Hin]; [auto |].
      rewrite Hok in He by lia. discriminate He.
    + intros Hrefused. unfold ConstructProof. rewrite Depth_treeOf.
      destruct (Z.ltb_spec lvl 1) as [Hlow | Hlow]; [cbn [orb]; eauto |].
      destruct (Z.geb_spec lvl (Z.of_nat (height leafs) + 1)) as [Hhigh | Hhigh];
        [cbn [orb]; eauto |].
      cbn [orb].
      destruct (Z.ltb_spec idx 0) as [Hneg | Hpos]; [eauto |].
      assert (Hout : width (treeOf leafs) lvl <= idx) by lia.
      rewrite width_treeOf in Hout by lia.
      pose proof (ConstructProof_beyond leafs (Z.to_nat lvl) idx ltac:(lia) Hout)
        as [e He].
      unfold ConstructProof in He. rewrite Depth_treeOf, Z2Nat.id in He by lia.
      destruct (Z.ltb_spec lvl 1); [lia |].
      destruct (Z.geb_spec lvl (Z.of_nat (height leafs) + 1)); [lia |].
      destruct (Z.ltb_spec idx 0); [lia |].
      cbn [orb] in He. eauto.
  - intros Hin. rewrite (Hok Hin).
    eexists. split; [reflexivity |].
    cbn [MerkleTree.lvl MerkleTree.idx path].
    assert (Hlvl : 1 <= lvl <= Z.of_nat (height leafs)) by lia.
    split; [reflexivity |]. split; [reflexivity |].
    split; [unfold len; rewrite length_siblings; lia |].
    intros l Hl.
    replace (Z.to_nat (l - 1)) with (Z.to_nat l - 1)%nat by lia.
    rewrite siblings_lookup by lia.
    replace (Z.of_nat (Z.to_nat lvl - Z.to_nat l)) with (lvl - l) by lia.
    rewrite sibOrZero_nodeAt; [reflexivity | lia |].
    apply Z.div_pos; [lia | apply Z.pow_pos_nonneg; lia].
Qed.

Lemma Leafs_treeOf (leafs : list Node) : Leafs (treeOf leafs) = Ok (len leafs).
Proof.
  unfold Leafs, len. rewrite nodes_treeOf_length.
  replace (Z.of_nat (S (height leafs)) - 1) with (Z.of_nat (height leafs)) by lia.
  rewrite indexZ_nat. unfold index.
  rewrite nodes_treeOf_lookup, rowAt_leafs by lia. reflexivity.
Qed.

(** C9. A tree grown from [n >= 1] leaves has [Depth = ceil(log2 n) + 1]
    and [Leafs = n]; the row stored at level [l] holds exactly
    [ceil(n / 2^(Depth - 1 - l))] nodes, and every position beyond that
    width reads as the zero [Node]. *)
Theorem tree_shape (leafs : list Node) (d : TreeData) :
  leafs <> [] -> len leafs <= maxLeafs -> grownFrom leafs d ->
  Depth d = Z.log2_up (len leafs) + 1
  /\ Leafs d = Ok (len leafs)
  /\ forall l, 0 <= l < Depth d ->
       (exists row, nodes d !! Z.to_nat l = Some row
                    /\ len row = ceilDiv (len leafs) (2 ^ (Depth d - 1 - l)))
       /\ width d l = ceilDiv (len leafs) (2 ^ (Depth d - 1 - l))
       /\ forall i, width d l <= i -> nodeAt d (Z.to_nat l) i = zeroNode.
Proof.
  intros Hne Hmax Hgrown.
  rewrite (grownFrom_treeOf leafs d Hmax Hgrown). clear d Hgrown.
  rewrite Depth_treeOf.
  split; [rewrite height_log2_up by assumption; reflexivity |].
  split; [apply Leafs_treeOf |].
  intros l Hl.
  assert (Hwidth : len (rowAt leafs (Z.to_nat l))
                   = ceilDiv (len leafs) (2 ^ (Z.of_nat (height leafs) + 1 - 1 - l))).
  { rewrite len_rowAt. do 2 f_equal. lia. }
  split; [| split].
  - exists (rowAt leafs (Z.to_nat l)).
    split; [apply nodes_treeOf_lookup; lia | exact Hwidth].
  - rewrite width_treeOf by lia. exact Hwidth.
  - intros i Hi. rewrite width_treeOf in Hi by lia.
    unfold nodeAt. rewrite nodes_treeOf_lookup by lia.
    destruct (Z.ltb_spec i 0) as [_ | Hpos]; [reflexivity |].
    rewrite lookup_ge_None_2; [reflexivity |]. unfold len in Hi. lia.
Qed.

Lemma log2Ceil_one : log2Ceil 1 = 0.
Proof. vm_compute. reflexivity. Qed.

(** C10. The tree grown from a single leaf byte-string has [Depth = 1],
    its root is [truncatedHash] of that leaf, and [ConstructProof] returns
    an error for every [(lvl, idx)]. *)
Theorem single_leaf_tree (leaf : list byte) :
  exists d, GrowTree [leaf] = Ok d
    /\ nodes d = [[truncatedHash leaf]]
    /\ Depth d = 1
    /\ GetRoot d = Ok (truncatedHash leaf)
    /\ forall lvl idx, exists e, ConstructProof d lvl idx = Err e.
Proof.
  exists (treeOf (hashList [leaf])).
  split.
  { apply GrowTree_treeOf; [discriminate | vm_compute; discriminate]. }
  assert (Hnodes : nodes (treeOf (hashList [leaf])) = [[truncatedHash leaf]]).
  { unfold treeOf, height. cbn [hashList map]. change (len [truncatedHash leaf]) with 1.
    rewrite log2Ceil_one. reflexivity. }
  split; [exact Hnodes |].
  split; [unfold Depth; rewrite Hnodes; reflexivity |].
  split; [unfold GetRoot; rewrite Hnodes; reflexivity |].
  intros lvl idx. unfold ConstructProof, Depth. rewrite Hnodes.
  change (len [[truncatedHash leaf]]) with 1.
  destruct (Z.ltb_spec lvl 1) as [Hlow | Hlow]; [cbn [orb]; eauto |].
  destruct (Z.geb_spec lvl 1) as [Hhigh | Hhigh]; [cbn [orb]; eauto | lia].
Qed.

(** The fold the validator is to perform, in the words of the data model:
    a zero sibling means that the sibling is absent and the parent is
    [truncatedHash] of the lone child; any other sibling is combined with
    the current node, on the side its index tells. *)
Definition foldParent (currentNode sibling : Node) (currentIdx : Z) : Node :=
  if decide (sibling = zeroNode) then truncatedHash (data currentNode)
  else if Z.rem (getSiblingIdx currentIdx) 2 =? 1
       then computeNode currentNode sibling
       else computeNode sibling currentNode.

(** The node reached from [currentNode] by folding with the siblings
    [path[level-1]], ..., [path[0]] in this order. *)
Fixpoint replay (path : list Node) (level : nat) (currentNode : Node) (currentIdx : Z)
  : Node :=
  match level with
  | O => currentNode
  | S above =>
      replay path above
        (foldParent currentNode (default zeroNode (path !! above)) currentIdx)
        (Z.quot currentIdx 2)
  end.

Lemma foldStep_foldParent (currentNode sibling : Node) (currentIdx : Z) :
  foldStep currentNode sibling currentIdx = foldParent currentNode sibling currentIdx.
Proof.
  unfold foldStep, foldParent.
  destruct (decide (data sibling = repeat x00 digestBytes)) as [Hzero | Hnz],
           (decide (sibling = zeroNode)) as [Heq | Hneq]; try reflexivity.
  - exfalso. apply Hneq. destruct sibling as [bytes]. cbn in Hzero.
    subst bytes. reflexivity.
  - exfalso. apply Hnz. subst sibling. reflexivity.
Qed.

(** The loop of [ValidateSubtree] leaves in [parent] the node [replay]
    reaches. *)
Lemma validateLoop_replay (p : ProofData) (c : nat) :
  forall (node : Node) (i : Z) (parent : option Node),
    (1 <= c <= length (path p))%nat ->
    validateLoop p c node i parent = Ok (Some (replay (path p) c node i)).
Proof.
  induction c as [| c IH]; intros node i parent Hc; [lia |].
  cbn [validateLoop replay]. unfold index.
  destruct (path p !! c) as [sibling |] eqn:Hsib.
  2: { apply lookup_ge_None in Hsib. lia. }
  cbn [bind default]. rewrite foldStep_foldParent.
  destruct c as [| c'].
  - reflexivity.
  - apply IH. lia.
Qed.

Lemma ValidateSubtree_replay (p : ProofData) (subtree root : Node) :
  1 <= lvl p <= len (path p) ->
  ValidateSubtree p subtree root
  = Ok (bool_decide (replay (path p) (Z.to_nat (lvl p)) subtree (idx p) = root)).
Proof.
  intros Hlvl. unfold ValidateSubtree.
  rewrite validateLoop_replay by (unfold len in Hlvl; lia).
  cbn [bind].
  set (up := replay (path p) (Z.to_nat (lvl p)) subtree (idx p)).
  destruct (decide (data up <> data root)) as [Hdiff | Hsame].
  - rewrite bool_decide_eq_false_2; [reflexivity |]. congruence.
  - rewrite bool_decide_eq_true_2; [reflexivity |].
    destruct up as [u], root as [r]. cbn [data] in Hsame.
    destruct (decide (u = r)) as [-> | Hur]; [reflexivity | contradiction].
Qed.

(** C5. In a grown tree, above every row of odd length the last parent is
    [truncatedHash] of the lone last child's bytes.  [ValidateSubtree]
    folds the same way.  On a proof of one level it answers whether the
    root is [truncatedHash] of the subtree's bytes when the recorded
    sibling is the zero [Node], and whether the root is [computeNode] of
    the two nodes when the sibling is any other node.  On a proof of any
    number of levels it answers whether the root is the node reached by
    folding so at every level. *)
Theorem single_child_fold (leafs : list Node) (d : TreeData) :
  len leafs <= maxLeafs -> grownFrom leafs d ->
  (forall (l : nat) (child : list Node) (lone : Node),
      (1 <= l)%nat -> nodes d !! l = Some child ->
      Z.rem (len child) 2 = 1 -> last child = Some lone ->
      exists parents, nodes d !! (l - 1)%nat = Some parents
                      /\ last parents = Some (truncatedHash (data lone)))
  /\ (forall (subtree root : Node) (idx : Z),
         ValidateSubtree (mkProof [zeroNode] 1 idx) subtree root
         = Ok (bool_decide (truncatedHash (data subtree) = root)))
  /\ (forall (subtree sibling root : Node) (idx : Z),
         sibling <> zeroNode ->
         ValidateSubtree (mkProof [sibling] 1 idx) subtree root
         = Ok (bool_decide
                 ((if Z.rem (getSiblingIdx idx) 2 =? 1
                   then computeNode subtree sibling
                   else computeNode sibling subtree) = root)))
  /\ (forall (p : ProofData) (subtree root : Node),
         1 <= lvl p <= len (path p) ->
         ValidateSubtree p subtree root
         = Ok (bool_decide
                 (replay (path p) (Z.to_nat (lvl p)) subtree (MerkleTree.idx p) = root))).
Proof.
  intros Hmax Hgrown.
  rewrite (grownFrom_treeOf leafs d Hmax Hgrown). clear d Hgrown.
  split; [| split; [| split]].
  - intros l child lone Hl Hchild Hodd Hlast.
    apply treeOf_row in Hchild as [Hle ->].
    exists (rowAt leafs (l - 1)). split; [apply nodes_treeOf_lookup; lia |].
    rewrite rowAt_pairUp by lia.
    replace (S (l - 1)) with l by lia.
    rewrite (pairUp_pairsOnly_odd _ lone) by (unfold len in Hodd; lia || exact Hlast).
    apply last_snoc.
  - intros subtree root idx.
    rewrite ValidateSubtree_replay by (unfold len; cbn; lia).
    cbn [path lvl MerkleTree.idx]. change (Z.to_nat 1) with 1%nat.
    cbn [replay lookup list_lookup default]. unfold foldParent, id.
    destruct (decide (zeroNode = zeroNode)); [reflexivity | congruence].
  - intros subtree sibling root idx Hsibling.
    rewrite ValidateSubtree_replay by (unfold len; cbn; lia).
    cbn [path lvl MerkleTree.idx]. change (Z.to_nat 1) with 1%nat.
    cbn [replay lookup list_lookup default]. unfold foldParent, id.
    destruct (decide (sibling = zeroNode)); [contradiction | reflexivity].
  - intros p subtree root Hlvl. apply ValidateSubtree_replay. exact Hlvl.
Qed.

Lemma validateLoop_total (p : ProofData) (c : nat) :
  forall (node : Node) (i : Z) (parent : option Node),
    (1 <= c <= length (path p))%nat ->
    exists up, validateLoop p c node i parent = Ok (Some up).
Proof.
  induction c as [| c IH]; intros node i parent Hc; [lia |].
  cbn [validateLoop]. unfold index.
  destruct (path p !! c) as [sibling |] eqn:Hsib.
  2: { apply lookup_ge_None in Hsib. lia. }
  cbn [bind].
  destruct c as [| c'].
  - cbn [validateLoop]. eauto.
  - apply IH. lia.
Qed.

(** C8.  For every well-formed proof, that is one with [1 <= lvl] whose
    path holds the [lvl] entries the loop reads, and for any subtree and
    root nodes, [ValidateSubtree] returns [true] or [false]: it neither
    panics nor dereferences a nil [parent]. *)
Theorem ValidateSubtree_total (p : ProofData) (subtree root : Node) :
  1 <= lvl p <= len (path p) ->
  exists b, ValidateSubtree p subtree root = Ok b.
Proof.
  intros Hlvl. unfold ValidateSubtree.
  destruct (validateLoop_total p (Z.to_nat (lvl p)) subtree (idx p) None)
    as [up Hup]; [unfold len in Hlvl; lia |].
  rewrite Hup. cbn [bind].
  destruct (decide (data up <> data root)); eauto.
Qed.

(** The bound [1 <= lvl] is needed: on the zero value [ProofData{}], which
    is no proof of the data model, the loop body never runs and the nil
    [parent] is dereferenced. *)
Lemma ValidateSubtree_aborts_at_level_zero :
  ~ (forall (p : ProofData) (subtree root : Node),
        len (path p) = lvl p -> exists b, ValidateSubtree p subtree root = Ok b).
Proof.
  intros Htotal.
  destruct (Htotal (mkProof [] 0 0) zeroNode zeroNode eq_refl) as [b Hb].
  discriminate Hb.
Qed.

(** *** Batched proofs *)

(** Below the returned counter the two paths agree. *)
Lemma commonLoop_agree (n : nat) :
  forall (ctr : nat) (left right : list Node) (k : nat),
    take ctr left = take ctr right ->
    commonLoop n ctr left right = Ok k ->
    take k left = take k right.
Proof.
  induction n as [| n IH]; intros ctr left right k Hagree Hrun.
  - cbn [commonLoop] in Hrun. congruence.
  - cbn [commonLoop] in Hrun. unfold index in Hrun.
    destruct (left !! ctr) as [l |] eqn:Hl; [| discriminate].
    destruct (right !! ctr) as [r |] eqn:Hr; [| discriminate].
    cbn [bind] in Hrun.
    destruct (decide (l <> r)) as [Hdiff | Hsame]; [congruence |].
    apply (IH (S ctr) left right k); [| exact Hrun].
    rewrite (take_S_r left ctr l Hl), (take_S_r right ctr r Hr), Hagree.
    f_equal. f_equal. destruct (decide (l = r)); [assumption | contradiction].
Qed.

(** Whenever [ConstructBatchedProof] returns a batched proof, the common
    prefix followed by either suffix is the path of the single proof of
    that endpoint. *)
Lemma ConstructBatchedProof_decomposes (d : TreeData)
    (leftLvl leftIdx rightLvl rightIdx : Z) (b : BatchedProofData) :
  ConstructBatchedProof d leftLvl leftIdx rightLvl rightIdx = Ok b ->
  exists leftProof rightProof,
    ConstructProof d leftLvl leftIdx = Ok leftProof
    /\ ConstructProof d rightLvl rightIdx = Ok rightProof
    /\ commonPath b ++ leftPath b = path leftProof
    /\ commonPath b ++ rightPath b = path rightProof.
Proof.
  unfold ConstructBatchedProof. intros Hrun.
  destruct ((leftLvl <? 1) || (leftLvl >=? Depth d) || (rightLvl <? 1)
            || (rightLvl >=? Depth d)); [discriminate |].
  destruct ((leftIdx <? 0) || (rightIdx <? 0)); [discriminate |].
  destruct (ConstructProof d leftLvl leftIdx) as [leftProof | |]; try discriminate.
  destruct (ConstructProof d rightLvl rightIdx) as [rightProof | |]; try discriminate.
  cbn [bind] in Hrun.
  destruct (commonLoop _ 0 (path leftProof) (path rightProof)) as [ctr | |] eqn:Hctr;
    try discriminate.
  cbn [bind] in Hrun. unfold sliceFrom, sliceTo in Hrun.
  destruct (decide (ctr <= length (path leftProof))%nat); [| discriminate].
  destruct (decide (ctr <= length (path rightProof))%nat); [| discriminate].
  cbn [bind] in Hrun. injection Hrun as <-.
  cbn [commonPath leftPath rightPath].
  exists leftProof, rightProof.
  split; [reflexivity |]. split; [reflexivity |].
  apply commonLoop_agree in Hctr; [| reflexivity].
  split; [rewrite <- Hctr |]; apply take_drop.
Qed.

(** When one path is a strict prefix of the other, the scan runs up to the
    longer length and reads past the end of the shorter path. *)
Lemma commonLoop_prefix_panics (extra : list Node) :
  extra <> [] ->
  forall (done rest : list Node),
    commonLoop (length (rest ++ extra)) (length done) (done ++ rest)
      (done ++ rest ++ extra) = Panic.
Proof.
  intros Hextra done rest. revert done.
  induction rest as [| x rest IH]; intros done.
  - destruct extra as [| e extra]; [congruence |].
    cbn [app length commonLoop]. unfold index.
    rewrite lookup_ge_None_2 by (rewrite length_app; cbn [length]; lia).
    reflexivity.
  - cbn [app length commonLoop]. unfold index.
    rewrite !list_lookup_middle by reflexivity. cbn [bind].
    destruct (decide (x <> x)) as [Hne | _]; [congruence |].
    specialize (IH (done ++ [x])).
    replace (length (done ++ [x])) with (S (length done)) in IH
      by (rewrite length_app; cbn [length]; lia).
    rewrite <- !app_assoc in IH. exact IH.
Qed.

(** The fixture of four one-byte leaves. *)
Definition abcd : list (list byte) := map bytes_of_string ["a"; "b"; "c"; "d"]%string.

Definition abcdTree : TreeData := treeOf (hashList abcd).

(** C4 fails on the code.  In the tree over four leaves the endpoints
    [(1, 0)] and [(2, 0)] are both valid, each has a single proof, and
    [ConstructBatchedProof] panics on them: the scan for the common prefix
    is bounded by the longer path and indexes the shorter one out of
    range. *)
Theorem ConstructBatchedProof_panics :
  GrowTree abcd = Ok abcdTree
  /\ (exists leftProof rightProof,
         ConstructProof abcdTree 1 0 = Ok leftProof
         /\ ConstructProof abcdTree 2 0 = Ok rightProof
         /\ len (path leftProof) = 1 /\ len (path rightProof) = 2
         /\ path rightProof !! 0%nat = path leftProof !! 0%nat)
  /\ ConstructBatchedProof abcdTree 1 0 2 0 = Panic.
Proof.
  split; [vm_compute; reflexivity |].
  split; [| vm_compute; reflexivity].
  do 2 eexists. repeat split; vm_compute; reflexivity.
Qed.

(** The fixture of three one-byte leaves. *)
Definition abc : list (list byte) := map bytes_of_string ["a"; "b"; "c"]%string.

Definition abcTree : TreeData := treeOf (hashList abc).

#[global] Instance noZeroNode_decision (d : TreeData) : Decision (noZeroNode d).
Proof. unfold noZeroNode. apply _. Defined.

Lemma round_trip_witness :
  exists p, ConstructProof abcTree 2 2 = Ok p
            /\ ValidateSubtree p (truncatedHash (bytes_of_string "c"))
                 (computeNode
                    (computeNode (truncatedHash (bytes_of_string "a"))
                                 (truncatedHash (bytes_of_string "b")))
                    (truncatedHash (data (truncatedHash (bytes_of_string "c")))))
               = Ok true.
Proof.
  apply (round_trip abc abcTree 2 2 (hashList abc)).
  - vm_compute. discriminate.
  - vm_compute. reflexivity.
  - apply (bool_decide_unpack (noZeroNode abcTree)). vm_compute. exact I.
  - vm_compute. split; discriminate.
  - lia.
  - vm_compute. reflexivity.
  - vm_compute. reflexivity.
  - vm_compute. reflexivity.
Defined.

Lemma abc_grown : grownFrom (hashList abc) abcTree.
Proof. apply grown_bytes with abc; [reflexivity | vm_compute; reflexivity]. Defined.

Lemma abc_nonempty : hashList abc <> [].
Proof. discriminate. Defined.

Lemma abc_fits : len (hashList abc) <= maxLeafs.
Proof. vm_compute. discriminate. Defined.

Lemma ConstructProof_spec_witness :
  grownFrom (hashList abc) abcTree
  /\ exists p, ConstructProof abcTree 2 2 = Ok p
       /\ len (path p) = 2
       /\ path p !! 1%nat = Some zeroNode
       /\ path p !! 0%nat
          = Some (computeNode (truncatedHash (bytes_of_string "a"))
                              (truncatedHash (bytes_of_string "b"))).
Proof.
  split; [exact abc_grown |].
  destruct (ConstructProof_spec (hashList abc) abcTree 2 2
              abc_nonempty abc_fits abc_grown) as [_ Hreturns].
  destruct Hreturns as (p & Hrun & _ & _ & Hlen & Hpath).
  { vm_compute. intros [H | [H | [H | H]]]; try discriminate H; apply H; reflexivity. }
  exists p. split; [exact Hrun |]. split; [exact Hlen |].
  split.
  - pose proof (Hpath 2 ltac:(lia)) as Hleaf.
    change (Z.to_nat (2 - 1)) with 1%nat in Hleaf.
    rewrite Hleaf. vm_compute. reflexivity.
  - pose proof (Hpath 1 ltac:(lia)) as Hmid.
    change (Z.to_nat (1 - 1)) with 0%nat in Hmid.
    rewrite Hmid. vm_compute. reflexivity.
Defined.

Lemma tree_shape_witness :
  hashList abc <> [] /\ len (hashList abc) <= maxLeafs
  /\ grownFrom (hashList abc) abcTree
  /\ Depth abcTree = Z.log2_up (len (hashList abc)) + 1
  /\ Leafs abcTree = Ok (len (hashList abc))
  /\ width abcTree 1 = ceilDiv 3 2.
Proof.
  split; [exact abc_nonempty |]. split; [exact abc_fits |].
  split; [exact abc_grown |].
  destruct (tree_shape (hashList abc) abcTree abc_nonempty abc_fits abc_grown)
    as (Hdepth & Hleafs & Hrows).
  split; [exact Hdepth |]. split; [exact Hleafs |].
  destruct (Hrows 1) as (_ & Hwidth & _).
  - vm_compute. split; [discriminate | reflexivity].
  - rewrite Hwidth. vm_compute. reflexivity.
Defined.

Lemma single_child_fold_witness :
  len (hashList abc) <= maxLeafs /\ grownFrom (hashList abc) abcTree
  /\ (exists parents,
         nodes abcTree !! 1%nat = Some parents
         /\ last parents
            = Some (truncatedHash (data (truncatedHash (bytes_of_string "c")))))
  /\ ValidateSubtree (mkProof [zeroNode] 1 1) (truncatedHash (bytes_of_string "c"))
       (truncatedHash (data (truncatedHash (bytes_of_string "c"))))
     = Ok true
  /\ ValidateSubtree (mkProof [zeroNode] 1 1) (truncatedHash (bytes_of_string "c"))
       (computeNode (truncatedHash (bytes_of_string "c")) zeroNode)
     = Ok false
  /\ truncatedHash (bytes_of_string "b") <> zeroNode
  /\ ValidateSubtree (mkProof [truncatedHash (bytes_of_string "b")] 1 0)
       (truncatedHash (bytes_of_string "a"))
       (computeNode (truncatedHash (bytes_of_string "a"))
          (truncatedHash (bytes_of_string "b")))
     = Ok true
  /\ ValidateSubtree (mkProof [truncatedHash (bytes_of_string "b")] 1 0)
       (truncatedHash (bytes_of_string "a"))
       (truncatedHash (data (truncatedHash (bytes_of_string "a"))))
     = Ok false
  /\ 1 <= 2 <= len [computeNode (truncatedHash (bytes_of_string "a"))
                      (truncatedHash (bytes_of_string "b")); zeroNode]
  /\ ValidateSubtree
       (mkProof [computeNode (truncatedHash (bytes_of_string "a"))
                   (truncatedHash (bytes_of_string "b")); zeroNode] 2 2)
       (truncatedHash (bytes_of_string "c"))
       (computeNode
          (computeNode (truncatedHash (bytes_of_string "a"))
             (truncatedHash (bytes_of_string "b")))
          (truncatedHash (data (truncatedHash (bytes_of_string "c")))))
     = Ok true.
Proof.
  split; [exact abc_fits |]. split; [exact abc_grown |].
  destruct (single_child_fold (hashList abc) abcTree abc_fits abc_grown)
    as (Htree & Hlone & Hpair & Hreplay).
  assert (Hb : truncatedHash (bytes_of_string "b") <> zeroNode)
    by (vm_compute; discriminate).
  assert (Hlvl : 1 <= 2 <= len [computeNode (truncatedHash (bytes_of_string "a"))
                                  (truncatedHash (bytes_of_string "b")); zeroNode])
    by (unfold len; cbn [length]; lia).
  refine (conj _ (conj _ (conj _ (conj Hb (conj _ (conj _ (conj Hlvl _))))))).
  - apply (Htree 2%nat (hashList abc) (truncatedHash (bytes_of_string "c"))).
    + lia.
    + vm_compute. reflexivity.
    + vm_compute. reflexivity.
    + vm_compute. reflexivity.
  - rewrite Hlone. vm_compute. reflexivity.
  - rewrite Hlone. vm_compute. reflexivity.
  - rewrite (Hpair _ _ _ _ Hb). vm_compute. reflexivity.
  - rewrite (Hpair _ _ _ _ Hb). vm_compute. reflexivity.
  - rewrite (Hreplay (mkProof [computeNode (truncatedHash (bytes_of_string "a"))
                                 (truncatedHash (bytes_of_string "b")); zeroNode] 2 2)
               _ _ Hlvl).
    vm_compute. reflexivity.
Defined.

Lemma ValidateSubtree_total_witness :
  1 <= 2 <= len [zeroNode; zeroNode]
  /\ exists b, ValidateSubtree (mkProof [zeroNode; zeroNode] 2 5) zeroNode zeroNode = Ok b.
Proof.
  assert (Hlvl : 1 <= 2 <= len [zeroNode; zeroNode]) by (vm_compute; split; discriminate).
  split; [exact Hlvl |].
  apply (ValidateSubtree_total (mkProof [zeroNode; zeroNode] 2 5) zeroNode zeroNode Hlvl).
Defined.

End MerkleTreeSpec.

(** ** The inclusion verifier *)
Module InclusionSpec.
Import MerkleTree DataSegment.

Section Runs.
Context {C : Collaborators}.

Variables (ip : InclusionProof) (veriferData : InclusionVerifierData).
Variables (commPc : list byte) (nodeCommPc commPa : Node).
Variables (entry : DataSegmentIndexEntry).

(** Steps 1 to 4 go through: the CID decodes, the subtree proof replays to
    [commPa], and the index entry is built. *)
Definition reachesIndexProof : Prop :=
  CIDToPieceCommitmentV1 (CommPc veriferData) = (commPc, None)
  /\ nodeOfSlice commPc = Ok nodeCommPc
  /\ ComputeRoot (ProofSubtree ip) nodeCommPc = (Some commPa, None)
  /\ 0 <= Depth (ProofSubtree ip)
  /\ MakeDataSegmentIndexEntry nodeCommPc
       (uint64 (Index (ProofSubtree ip) * uint64 (SizePc veriferData)))
       (uint64 (SizePc veriferData))
     = (Some entry, None).

(** The replay of the index proof from the entry's leaf hands back the same
    commitment, whatever error value comes with it. *)
Definition commitmentsAgree : Prop :=
  fst (ComputeRoot (ProofIndex ip) (truncatedHash (SerializeFr32 entry))) = Some commPa
  /\ 0 <= Depth (ProofIndex ip).

(** The run of [ComputeExpectedAuxData] once the two commitments agree: the
    sizes are compared after reduction modulo [2^64]. *)
Lemma run_after_commitments :
  reachesIndexProof -> commitmentsAgree ->
  ComputeExpectedAuxData ip veriferData
  = let assumedSizePa :=
      uint64 (uint64 (Z.shiftl 1 (Depth (ProofSubtree ip))) * SizePc veriferData) in
    let assumedSizePa2 :=
      uint64 (uint64 (Z.shiftl 1 (Depth (ProofIndex ip))) * BytesInDataSegmentIndexEntry) in
    if negb (assumedSizePa2 =? assumedSizePa)
    then Err (ErrNew "aggregator's data size doesn't match")
    else match PieceCommitmentV1ToCID (data commPa) with
         | (_, Some e) => Err (ErrWrap "converting raw commiement to CID" e)
         | (cidPa, None) => Ok (mkAuxData cidPa assumedSizePa)
         end.
Proof.
  intros (Hcid & Hnode & Hsub & Hd1 & Hentry) (Hidx & Hd2).
  unfold ComputeExpectedAuxData, shl1_uint64.
  rewrite Hcid, Hnode. cbn [bind]. rewrite Hsub.
  destruct (Z.ltb_spec (Depth (ProofSubtree ip)) 0) as [Hneg | _]; [lia |].
  cbn [bind]. rewrite Hentry. cbn [deref bind].
  destruct (ComputeRoot (ProofIndex ip) _) as [root2 err2].
  cbn [fst] in Hidx. subst root2. cbn [deref bind].
  destruct (decide (commPa <> commPa)) as [Hne | _]; [congruence |].
  destruct (Z.ltb_spec (Depth (ProofIndex ip)) 0) as [Hneg | _]; [lia |].
  cbn [bind]. cbv zeta.
  destruct (negb _); [reflexivity |].
  destruct (PieceCommitmentV1ToCID (data commPa)) as [cidPa [e |]]; reflexivity.
Qed.

(** When the replay of the index proof returns a nil root and an error,
    the error is not looked at and the nil root is dereferenced. *)
Lemma run_index_proof_error (e : error) :
  reachesIndexProof ->
  ComputeRoot (ProofIndex ip) (truncatedHash (SerializeFr32 entry)) = (None, Some e) ->
  ComputeExpectedAuxData ip veriferData = Panic.
Proof.
  intros (Hcid & Hnode & Hsub & Hd1 & Hentry) Hidx.
  unfold ComputeExpectedAuxData, shl1_uint64.
  rewrite Hcid, Hnode. cbn [bind]. rewrite Hsub.
  destruct (Z.ltb_spec (Depth (ProofSubtree ip)) 0) as [Hneg | _]; [lia |].
  cbn [bind]. rewrite Hentry. cbn [deref bind]. rewrite Hidx. reflexivity.
Qed.

(** Whatever is returned as [SizePa] passed both derivations, each reduced
    modulo [2^64], and the entry was built from the wrapped offset. *)
Lemma returned_sizes (aux : InclusionAuxData) :
  ComputeExpectedAuxData ip veriferData = Ok aux ->
  SizePa aux
  = uint64 (uint64 (Z.shiftl 1 (Depth (ProofSubtree ip))) * SizePc veriferData)
  /\ SizePa aux
     = uint64 (uint64 (Z.shiftl 1 (Depth (ProofIndex ip))) * BytesInDataSegmentIndexEntry)
  /\ 0 <= Depth (ProofSubtree ip) /\ 0 <= Depth (ProofIndex ip)
  /\ exists node built,
       MakeDataSegmentIndexEntry node
         (uint64 (Index (ProofSubtree ip) * uint64 (SizePc veriferData)))
         (uint64 (SizePc veriferData))
       = (Some built, None).
Proof.
  unfold ComputeExpectedAuxData, shl1_uint64.
  destruct (CIDToPieceCommitmentV1 (CommPc veriferData)) as [bytes [e |]];
    [discriminate |].
  destruct (nodeOfSlice bytes) as [node | |]; cbn [bind]; try discriminate.
  destruct (ComputeRoot (ProofSubtree ip) node) as [root [e |]]; [discriminate |].
  destruct (Z.ltb_spec (Depth (ProofSubtree ip)) 0) as [Hneg | Hd1];
    cbn [bind]; [discriminate |].
  destruct (MakeDataSegmentIndexEntry node _ _) as [built [e |]] eqn:Hbuilt;
    [discriminate |].
  destruct built as [built |]; cbn [deref bind]; [| discriminate].
  destruct (ComputeRoot (ProofIndex ip) _) as [[root2 |] err2];
    cbn [deref bind]; [| discriminate].
  destruct root as [root |]; cbn [deref bind]; [| discriminate].
  destruct (decide (root2 <> root)); [discriminate |].
  destruct (Z.ltb_spec (Depth (ProofIndex ip)) 0) as [Hneg | Hd2];
    cbn [bind]; [discriminate |].
  cbv zeta.
  destruct (Z.eqb_spec
              (uint64 (uint64 (Z.shiftl 1 (Depth (ProofIndex ip)))
                       * BytesInDataSegmentIndexEntry))
              (uint64 (uint64 (Z.shiftl 1 (Depth (ProofSubtree ip)))
                       * SizePc veriferData))) as [Hsame | Hdiff];
    cbn [negb]; [| discriminate].
  destruct (PieceCommitmentV1ToCID (data root)) as [cidPa [e |]]; [discriminate |].
  intros Hrun. injection Hrun as <-. cbn [SizePa].
  repeat split; try assumption; try (symmetry; assumption).
  exists node, built. exact Hbuilt.
Qed.

(** As long as neither product leaves the [uint64] range, the returned size
    is the product itself and the offset is [Index * SizePc]. *)
Lemma sizes_exact_without_overflow (aux : InclusionAuxData) :
  ComputeExpectedAuxData ip veriferData = Ok aux ->
  0 <= SizePc veriferData < 2 ^ 64 -> 0 <= Index (ProofSubtree ip) ->
  2 ^ Depth (ProofSubtree ip) * SizePc veriferData < 2 ^ 64 ->
  2 ^ Depth (ProofSubtree ip) < 2 ^ 64 ->
  2 ^ Depth (ProofIndex ip) * 64 < 2 ^ 64 ->
  Index (ProofSubtree ip) * SizePc veriferData < 2 ^ 64 ->
  SizePa aux = 2 ^ Depth (ProofSubtree ip) * SizePc veriferData
  /\ SizePa aux = 2 ^ Depth (ProofIndex ip) * 64
  /\ exists node built,
       MakeDataSegmentIndexEntry node
         (Index (ProofSubtree ip) * SizePc veriferData) (SizePc veriferData)
       = (Some built, None).
Proof.
  intros Hrun Hsize Hindex Hfit1 Hpow1 Hfit2 Hoffset.
  destruct (returned_sizes aux Hrun) as (Hsub & Hidx & Hd1 & Hd2 & node & built & Hbuilt).
  assert (Hp1 : 0 < 2 ^ Depth (ProofSubtree ip)) by (apply Z.pow_pos_nonneg; lia).
  assert (Hp2 : 0 < 2 ^ Depth (ProofIndex ip)) by (apply Z.pow_pos_nonneg; lia).
  rewrite !Z.shiftl_1_l in *. unfold BytesInDataSegmentIndexEntry, BytesInNode in Hidx.
  change (2 * 32) with 64 in Hidx.
  rewrite (uint64_small (2 ^ Depth (ProofSubtree ip))) in Hsub by lia.
  rewrite (uint64_small (2 ^ Depth (ProofIndex ip))) in Hidx by lia.
  rewrite uint64_small in Hsub by nia.
  rewrite uint64_small in Hidx by lia.
  rewrite (uint64_small (SizePc veriferData)) in Hbuilt by lia.
  rewrite uint64_small in Hbuilt by nia.
  split; [exact Hsub |]. split; [exact Hidx |].
  exists node, built. exact Hbuilt.
Qed.

End Runs.

(** C2 fails on the code.  With a subtree proof of depth 60, [SizePc = 2^16]
    and an index proof of depth 58, the product [(1 << 60) * SizePc] is
    [2^76], beyond [2^63]; both size derivations wrap to 0, the comparison
    passes, the CID is encoded and the call returns [SizePa = 0] instead of
    an overflow error. *)
Theorem size_overflow_unreported {C : Collaborators}
    (ip : InclusionProof) (veriferData : InclusionVerifierData)
    (commPc : list byte) (nodeCommPc commPa : Node)
    (entry : DataSegmentIndexEntry) (cidPa : Cid) :
  reachesIndexProof ip veriferData commPc nodeCommPc commPa entry ->
  commitmentsAgree ip commPa entry ->
  PieceCommitmentV1ToCID (data commPa) = (cidPa, None) ->
  Depth (ProofSubtree ip) = 60 -> SizePc veriferData = 2 ^ 16 ->
  Depth (ProofIndex ip) = 58 ->
  2 ^ 63 < Z.shiftl 1 (Depth (ProofSubtree ip)) * SizePc veriferData
  /\ ComputeExpectedAuxData ip veriferData = Ok (mkAuxData cidPa 0).
Proof.
  intros Hreach Hagree Hcid Hd1 Hsize Hd2.
  rewrite (run_after_commitments ip veriferData commPc nodeCommPc commPa entry
             Hreach Hagree).
  rewrite Hd1, Hsize, Hd2, Hcid.
  split; [vm_compute; reflexivity | reflexivity].
Qed.

(** C3 fails on the code.  When the replay of the index proof returns an
    error (and, as Go functions do, a nil root), [ComputeExpectedAuxData]
    does not return that error: it never reads it, dereferences the nil
    root and panics. *)
Theorem index_proof_error_not_propagated {C : Collaborators}
    (ip : InclusionProof) (veriferData : InclusionVerifierData)
    (commPc : list byte) (nodeCommPc commPa : Node)
    (entry : DataSegmentIndexEntry) (e : error) :
  reachesIndexProof ip veriferData commPc nodeCommPc commPa entry ->
  ComputeRoot (ProofIndex ip) (truncatedHash (SerializeFr32 entry)) = (None, Some e) ->
  ComputeExpectedAuxData ip veriferData = Panic.
Proof.
  intros Hreach Hidx.
  exact (run_index_proof_error ip veriferData commPc nodeCommPc commPa entry e
           Hreach Hidx).
Qed.

(** C6 fails on the code.  On the input of C2 the call returns
    successfully with [SizePa = 0], which is neither
    [(1 << 60) * SizePc = 2^76] nor [(1 << 58) * 64 = 2^64]. *)
Theorem wrapped_size_returned {C : Collaborators}
    (ip : InclusionProof) (veriferData : InclusionVerifierData)
    (commPc : list byte) (nodeCommPc commPa : Node)
    (entry : DataSegmentIndexEntry) (cidPa : Cid) :
  reachesIndexProof ip veriferData commPc nodeCommPc commPa entry ->
  commitmentsAgree ip commPa entry ->
  PieceCommitmentV1ToCID (data commPa) = (cidPa, None) ->
  Depth (ProofSubtree ip) = 60 -> SizePc veriferData = 2 ^ 16 ->
  Depth (ProofIndex ip) = 58 ->
  exists aux, ComputeExpectedAuxData ip veriferData = Ok aux
    /\ SizePa aux <> Z.shiftl 1 (Depth (ProofSubtree ip)) * SizePc veriferData
    /\ SizePa aux <> Z.shiftl 1 (Depth (ProofIndex ip)) * BytesInDataSegmentIndexEntry.
Proof.
  intros Hreach Hagree Hcid Hd1 Hsize Hd2.
  exists (mkAuxData cidPa 0).
  rewrite (run_after_commitments ip veriferData commPc nodeCommPc commPa entry
             Hreach Hagree).
  rewrite Hd1, Hsize, Hd2, Hcid. cbn [SizePa].
  split; [reflexivity |]. split; vm_compute; discriminate.
Qed.

(** *** A concrete set of collaborators *)

Record SpecProof : Type := mkSpecProof { specPath : list Node; specIndex : Z }.

(** Modelled from the spec: [ComputeRoot] of the [ProofData] that
    [inclusion.go] imports is missing.  Section 4.F: the replay is
    validation without the comparison against a root, and it fails on an
    index out of range for the path length.  The replay is the loop of
    [ValidateSubtree]. *)
Definition specComputeRoot (p : SpecProof) (subtree : Node) : option Node * option error :=
  let depth := len (specPath p) in
  if (specIndex p <? 0) || (2 ^ depth <=? specIndex p) then
    (None, Some (ErrNew "index out of range for path length"))
  else
    match validateLoop (mkProof (specPath p) depth (specIndex p))
            (length (specPath p)) subtree (specIndex p) None with
    | Ok (Some root) => (Some root, None)
    | Ok None => (Some subtree, None)
    | _ => (None, Some (ErrNew "path shorter than the level"))
    end.

Record SpecEntry : Type := mkSpecEntry { commDs : Node; offset : Z; size : Z }.

(** Little-endian encoding of [z] on [n] bytes. *)
Definition le_bytes (n : nat) (z : Z) : list byte := rev (SHA256.be_bytes n z).

(** Modelled from the spec: the Fr32 entry of package datasegment is
    missing.  Section 3: a 64-byte record, the commitment followed by the
    packed offset and size; the checksum bytes, whose layout the spec
    leaves to Fr32, are zero here and every offset and size is accepted. *)
Definition specSerialize (en : SpecEntry) : list byte :=
  data (commDs en) ++ le_bytes 8 (offset en) ++ le_bytes 8 (size en) ++ repeat x00 16.

(** Modelled from the spec: the codec of go-fil-commcid is external.
    Section 6: a CID decodes to the 32-byte commitment it wraps or is
    refused; the CID is held as those bytes. *)
Definition specDecodeCid (cid : list byte) : list byte * option error :=
  if decide (length cid = digestBytes) then (cid, None)
  else ([], Some (ErrNew "not a piece commitment")).

Definition specEncodeCid (bytes : list byte) : list byte * option error :=
  if decide (length bytes = digestBytes) then (bytes, None)
  else ([], Some (ErrNew "not a piece commitment")).

#[local] Instance specCollaborators : Collaborators := {|
  Cid := list byte;
  ProofData := SpecProof;
  DataSegmentIndexEntry := SpecEntry;
  CIDToPieceCommitmentV1 := specDecodeCid;
  PieceCommitmentV1ToCID := specEncodeCid;
  ComputeRoot := specComputeRoot;
  Depth := fun p => len (specPath p);
  Index := specIndex;
  MakeDataSegmentIndexEntry := fun comm off sz => (Some (mkSpecEntry comm off sz), None);
  SerializeFr32 := specSerialize
|}.

(** *** The overflowing input *)

(** A client piece of [2^16] bytes at position 0 of level 60, next to
    filler subtrees all the way up. *)
Definition clientNode : Node := truncatedHash (bytes_of_string "client piece").

Definition filler : Node := truncatedHash (bytes_of_string "filler").

(** The ancestor [n] levels above a leftmost node whose siblings are all
    [filler]. *)
Definition climb (n : nat) (node : Node) : Node :=
  Nat.iter n (fun below => computeNode below filler) node.

Definition overflowEntryLeaf : Node :=
  truncatedHash (specSerialize (mkSpecEntry clientNode 0 (2 ^ 16))).

Definition overflowProof : InclusionProof :=
  mkInclusionProof
    (mkSpecProof (climb 57 overflowEntryLeaf :: repeat filler 59) 0)
    (mkSpecProof (climb 59 clientNode :: repeat filler 57) (2 ^ 57)).

Definition overflowData : InclusionVerifierData :=
  mkVerifierData (data clientNode) (2 ^ 16).

Definition overflowRoot : Node :=
  computeNode (climb 59 clientNode) (climb 57 overflowEntryLeaf).

Lemma overflow_reaches :
  reachesIndexProof overflowProof overflowData (data clientNode) clientNode
    overflowRoot (mkSpecEntry clientNode 0 (2 ^ 16)).
Proof.
  refine (conj _ (conj _ (conj _ (conj _ _)))); vm_compute;
    first [reflexivity | discriminate].
Defined.

Lemma overflow_agrees :
  commitmentsAgree overflowProof overflowRoot (mkSpecEntry clientNode 0 (2 ^ 16)).
Proof.
  refine (conj _ _); vm_compute; first [reflexivity | discriminate].
Defined.

Lemma size_overflow_unreported_witness :
  2 ^ 63 < Z.shiftl 1 (Depth (ProofSubtree overflowProof)) * SizePc overflowData
  /\ ComputeExpectedAuxData overflowProof overflowData
     = Ok (mkAuxData (data overflowRoot) 0).
Proof.
  apply (size_overflow_unreported overflowProof overflowData (data clientNode)
           clientNode overflowRoot (mkSpecEntry clientNode 0 (2 ^ 16))
           (data overflowRoot) overflow_reaches overflow_agrees).
  - vm_compute. reflexivity.
  - vm_compute. reflexivity.
  - reflexivity.
  - vm_compute. reflexivity.
Defined.

Lemma wrapped_size_returned_witness :
  exists aux, ComputeExpectedAuxData overflowProof overflowData = Ok aux
    /\ SizePa aux
       <> Z.shiftl 1 (Depth (ProofSubtree overflowProof)) * SizePc overflowData
    /\ SizePa aux
       <> Z.shiftl 1 (Depth (ProofIndex overflowProof)) * BytesInDataSegmentIndexEntry.
Proof.
  apply (wrapped_size_returned overflowProof overflowData (data clientNode)
           clientNode overflowRoot (mkSpecEntry clientNode 0 (2 ^ 16))
           (data overflowRoot) overflow_reaches overflow_agrees).
  - vm_compute. reflexivity.
  - vm_compute. reflexivity.
  - reflexivity.
  - vm_compute. reflexivity.
Defined.

(** *** An index proof that does not replay *)

(** The index 1 is out of range for the empty path of the index proof. *)
Definition brokenProof : InclusionProof :=
  mkInclusionProof (mkSpecProof [filler] 0) (mkSpecProof [] 1).

Definition brokenData : InclusionVerifierData :=
  mkVerifierData (data clientNode) 128.

Lemma index_proof_error_not_propagated_witness :
  ComputeRoot (ProofIndex brokenProof)
    (truncatedHash (SerializeFr32 (mkSpecEntry clientNode 0 128)))
  = (None, Some (ErrNew "index out of range for path length"))
  /\ ComputeExpectedAuxData brokenProof brokenData = Panic.
Proof.
  assert (Hidx : ComputeRoot (ProofIndex brokenProof)
                   (truncatedHash (SerializeFr32 (mkSpecEntry clientNode 0 128)))
                 = (None, Some (ErrNew "index out of range for path length")))
    by (vm_compute; reflexivity).
  split; [exact Hidx |].
  apply (index_proof_error_not_propagated brokenProof brokenData (data clientNode)
           clientNode (computeNode clientNode filler) (mkSpecEntry clientNode 0 128)
           (ErrNew "index out of range for path length")).
  - refine (conj _ (conj _ (conj _ (conj _ _)))); vm_compute;
      first [reflexivity | discriminate].
  - exact Hidx.
Defined.

End InclusionSpec.

(** ** Further properties of the Merkle tree *)
Module TreeProps.
Import MerkleTree Build Extract Replay MerkleTreeSpec.

#[local] Ltac Zify.zify_post_hook ::= Z.to_euclidean_division_equations.

(** *** Integer helpers *)

(** X1. On every positive [int], [log2Ceil] is the ceiling of the binary
    logarithm: the least exponent whose power of two reaches the value. *)
Theorem log2Ceil_ceiling (value : Z) :
  0 < value < 2 ^ 63 ->
  log2Ceil value = Z.log2_up value
  /\ value <= 2 ^ log2Ceil value
  /\ (1 < value -> 2 ^ (log2Ceil value - 1) < value).
Proof.
  intros Hv. rewrite Log2Ceil.log2Ceil_log2_up by exact Hv.
  split; [reflexivity |].
  split.
  - apply Z.log2_log2_up_spec. lia.
  - intros Hone. pose proof (Z.log2_up_spec value Hone) as [Hlo _].
    rewrite <- Z.sub_1_r in Hlo. exact Hlo.
Qed.

Lemma log2Ceil_ceiling_witness :
  0 < 1025 < 2 ^ 63 /\ log2Ceil 1025 = Z.log2_up 1025 /\ log2Ceil 1025 = 11.
Proof.
  assert (Hrange : 0 < 1025 < 2 ^ 63) by (vm_compute; split; reflexivity).
  split; [exact Hrange |].
  destruct (log2Ceil_ceiling 1025 Hrange) as (Hlog & _ & _).
  split; [exact Hlog |]. vm_compute. reflexivity.
Defined.

(** X2. For a non-negative index, [getSiblingIdx] gives the other child of
    the same parent: a non-negative neighbour at distance one, with the same
    half, whose own sibling is the index again. *)
Theorem getSiblingIdx_pairs (idx : Z) :
  0 <= idx ->
  0 <= getSiblingIdx idx
  /\ Z.abs (getSiblingIdx idx - idx) = 1
  /\ Z.quot (getSiblingIdx idx) 2 = Z.quot idx 2
  /\ getSiblingIdx (getSiblingIdx idx) = idx.
Proof.
  intros Hidx. unfold getSiblingIdx.
  destruct (Z.eqb_spec (Z.rem idx 2) 0) as [Heven | Hodd].
  - destruct (Z.eqb_spec (Z.rem (idx + 1) 2) 0); lia.
  - destruct (Z.eqb_spec (Z.rem (idx - 1) 2) 0); lia.
Qed.

Lemma getSiblingIdx_pairs_witness :
  0 <= 6 /\ getSiblingIdx 6 = 7 /\ getSiblingIdx (getSiblingIdx 6) = 6.
Proof.
  assert (Hidx : 0 <= 6) by lia.
  split; [exact Hidx |].
  destruct (getSiblingIdx_pairs 6 Hidx) as (_ & _ & _ & Hback).
  split; [reflexivity | exact Hback].
Defined.

(** *** Digest primitive *)

Lemma length_be_bytes (n : nat) : forall z, length (SHA256.be_bytes n z) = n.
Proof.
  induction n as [| n IH]; intros z; [reflexivity |].
  cbn [SHA256.be_bytes]. rewrite length_app, IH. cbn [length]. lia.
Qed.

Lemma length_round (st : list Z) (kw : Z * Z) :
  length st = 8%nat -> length (SHA256.round st kw) = 8%nat.
Proof.
  intros Hlen. do 9 (destruct st as [| ? st]; try discriminate Hlen).
  reflexivity.
Qed.

Lemma length_rounds (kws : list (Z * Z)) :
  forall st, length st = 8%nat -> length (fold_left SHA256.round kws st) = 8%nat.
Proof.
  induction kws as [| kw kws IH]; intros st Hlen; [exact Hlen |].
  cbn [fold_left]. apply IH. apply length_round. exact Hlen.
Qed.

Lemma length_compress (st : list Z) (block : list byte) :
  length st = 8%nat -> length (SHA256.compress st block) = 8%nat.
Proof.
  intros Hlen. unfold SHA256.compress.
  rewrite length_zip_with, length_rounds by exact Hlen. lia.
Qed.

Lemma length_compress_all (blocks : list (list byte)) :
  forall st, length st = 8%nat -> length (fold_left SHA256.compress blocks st) = 8%nat.
Proof.
  induction blocks as [| block blocks IH]; intros st Hlen; [exact Hlen |].
  cbn [fold_left]. apply IH. apply length_compress. exact Hlen.
Qed.

Lemma length_Sum256 (msg : list byte) : length (SHA256.Sum256 msg) = 32%nat.
Proof.
  unfold SHA256.Sum256.
  pose proof (length_compress_all
                (SHA256.chunks (length (SHA256.pad msg)) 64 (SHA256.pad msg))
                SHA256.init eq_refl) as Hlen.
  cbv zeta.
  generalize dependent (fold_left SHA256.compress
                          (SHA256.chunks (length (SHA256.pad msg)) 64 (SHA256.pad msg))
                          SHA256.init).
  intros st Hlen.
  do 9 (destruct st as [| ? st]; try discriminate Hlen).
  cbn [map concat]. rewrite !length_app, !length_be_bytes. reflexivity.
Qed.

Lemma masked_byte (b : byte) :
  byte_to_Z (byte_of_Z (Z.land (byte_to_Z b) 0x3F)) < 64.
Proof. destruct b; vm_compute; reflexivity. Qed.

(** X3. Every node [truncatedHash] returns holds 32 bytes, and the two top
    bits of its last byte are clear. *)
Theorem truncatedHash_254_bits (bytes : list byte) :
  length (data (truncatedHash bytes)) = digestBytes
  /\ exists last, data (truncatedHash bytes) !! 31%nat = Some last
                  /\ byte_to_Z last < 64.
Proof.
  unfold truncatedHash. cbn [data].
  change (256 / 8 - 1)%nat with 31%nat.
  split; [rewrite length_alter; apply length_Sum256 |].
  rewrite list_lookup_alter.
  destruct (SHA256.Sum256 bytes !! 31%nat) as [b |] eqn:Hlast.
  - eexists. split; [reflexivity | apply masked_byte].
  - apply lookup_ge_None in Hlast. rewrite length_Sum256 in Hlast. lia.
Qed.

(** *** Tree construction *)




(** X5. [GrowTree] returns an error exactly on the empty input.  On any
    other input it returns a tree whose last row holds the truncated hashes
    of the inputs, in order, and from which [GetRoot] returns a node. *)
Theorem GrowTree_outcome (leafData : list (list byte)) :
  len leafData <= maxLeafs ->
  ((exists e, GrowTree leafData = Err e) <-> leafData = [])
  /\ (leafData <> [] ->
      exists d root, GrowTree leafData = Ok d
        /\ last (nodes d) = Some (map truncatedHash leafData)
        /\ GetRoot d = Ok root).
Proof.
  intros Hmax.
  assert (Hgrown : leafData <> [] ->
                   GrowTree leafData = Ok (treeOf (hashList leafData)))
    by (intros Hne; apply GrowTree_treeOf; assumption).
  split.
  - split.
    + intros [e He]. destruct leafData as [| x rest]; [reflexivity |].
      rewrite Hgrown in He by discriminate. discriminate He.
    + intros ->. eexists. reflexivity.
  - intros Hne. rewrite (Hgrown Hne).
    set (leafs := hashList leafData).
    assert (Hne' : leafs <> []).
    { subst leafs. destruct leafData; [congruence | discriminate]. }
    assert (Hmax' : len leafs <= maxLeafs).
    { subst leafs. unfold hashList, len in *. rewrite length_map. exact Hmax. }
    pose proof (len_root_row leafs Hne' Hmax') as Hroot.
    destruct (rowAt leafs 0) as [| root row0] eqn:Hrow0;
      [change (len []) with 0 in Hroot; lia |].
    exists (treeOf leafs), root.
    split; [reflexivity |]. split.
    + unfold treeOf. cbn [nodes]. apply last_snoc.
    + unfold GetRoot, index. rewrite nodes_treeOf_lookup by lia.
      rewrite Hrow0. reflexivity.
Qed.

Lemma GrowTree_outcome_witness :
  len abc <= maxLeafs
  /\ exists d root, GrowTree abc = Ok d
       /\ last (nodes d) = Some (map truncatedHash abc) /\ GetRoot d = Ok root.
Proof.
  assert (Hmax : len abc <= maxLeafs) by (vm_compute; discriminate).
  split; [exact Hmax |].
  destruct (GrowTree_outcome abc Hmax) as [_ Hgrows].
  apply Hgrows. discriminate.
Defined.

Lemma pairUp_lookup_pair (pre : list Node) :
  forall (i : nat) (l r : Node),
    pre !! (2 * i)%nat = Some l -> pre !! (2 * i + 1)%nat = Some r ->
    pairUp pre !! i = Some (computeNode l r).
Proof.
  induction pre as [| a | a b rest IH] using pair_ind; intros i l r Hl Hr.
  - discriminate.
  - destruct i; cbn in Hr; discriminate.
  - destruct i as [| i].
    + cbn in Hl, Hr. injection Hl as ->. injection Hr as ->. reflexivity.
    + replace (2 * S i)%nat with (S (S (2 * i))) in Hl by lia.
      replace (2 * S i + 1)%nat with (S (S (2 * i + 1))) in Hr by lia.
      cbn [pairUp lookup list_lookup] in *. apply IH; assumption.
Qed.

(** X6. In a grown tree every node with two children is [computeNode] of
    the left child and the right child. *)
Theorem interior_node_combines (leafs : list Node) (d : TreeData)
    (l i : nat) (children : list Node) (left right : Node) :
  len leafs <= maxLeafs -> grownFrom leafs d ->
  nodes d !! S l = Some children ->
  children !! (2 * i)%nat = Some left ->
  children !! (2 * i + 1)%nat = Some right ->
  exists parents, nodes d !! l = Some parents
                  /\ parents !! i = Some (computeNode left right).
Proof.
  intros Hmax Hgrown Hchildren Hleft Hright.
  rewrite (grownFrom_treeOf leafs d Hmax Hgrown) in *. clear d Hgrown.
  apply treeOf_row in Hchildren as [Hl ->].
  exists (rowAt leafs l). split; [apply nodes_treeOf_lookup; lia |].
  rewrite rowAt_pairUp by exact Hl.
  apply pairUp_lookup_pair; assumption.
Qed.

Lemma interior_node_combines_witness :
  grownFrom (hashList abc) abcTree
  /\ exists parents, nodes abcTree !! 1%nat = Some parents
       /\ parents !! 0%nat
          = Some (computeNode (truncatedHash (bytes_of_string "a"))
                              (truncatedHash (bytes_of_string "b"))).
Proof.
  split; [exact abc_grown |].
  apply (interior_node_combines (hashList abc) abcTree 1 0 (hashList abc)
           (truncatedHash (bytes_of_string "a"))
           (truncatedHash (bytes_of_string "b")) abc_fits abc_grown).
  - vm_compute. reflexivity.
  - reflexivity.
  - reflexivity.
Defined.

(** *** Tree validation *)

Lemma deepEqual_true (a b : list (list Node)) : deepEqual a b = true <-> a = b.
Proof. unfold deepEqual. apply bool_decide_eq_true. Qed.

Lemma leaf_row_treeOf (leafs : list Node) :
  indexZ (nodes (treeOf leafs)) (Depth (treeOf leafs) - 1) = Ok leafs.
Proof.
  rewrite Depth_treeOf.
  replace (Z.of_nat (height leafs) + 1 - 1) with (Z.of_nat (height leafs)) by lia.
  rewrite indexZ_nat. unfold index.
  rewrite nodes_treeOf_lookup, rowAt_leafs by lia. reflexivity.
Qed.

(** X7. [Validate] accepts every tree the builder returns. *)
Theorem Validate_accepts_grown (leafs : list Node) (d : TreeData) :
  len leafs <= maxLeafs -> grownFrom leafs d -> Validate d = Ok true.
Proof.
  intros Hmax Hgrown.
  rewrite (grownFrom_treeOf leafs d Hmax Hgrown). clear d Hgrown.
  unfold Validate. rewrite leaf_row_treeOf. cbn [bind].
  rewrite growTreeHashedLeafs_treeOf by exact Hmax. cbn [bind].
  f_equal. apply deepEqual_true. reflexivity.
Qed.

Lemma Validate_accepts_grown_witness :
  len (hashList abc) <= maxLeafs /\ grownFrom (hashList abc) abcTree
  /\ Validate abcTree = Ok true.
Proof.
  split; [exact abc_fits |]. split; [exact abc_grown |].
  exact (Validate_accepts_grown (hashList abc) abcTree abc_fits abc_grown).
Defined.

(** The tree [d] with the node at [(l, i)] of its row [row] replaced. *)
Definition replaceNode (d : TreeData) (l i : nat) (row : list Node) (new : Node)
  : TreeData :=
  mkTree (<[l := <[i := new]> row]> (nodes d)).

Lemma replaceNode_differs (d : TreeData) (l i : nat) (row : list Node)
    (old new : Node) :
  nodes d !! l = Some row -> row !! i = Some old -> new <> old ->
  nodes (replaceNode d l i row new) <> nodes d.
Proof.
  intros Hrow Hold Hne Heq. unfold replaceNode in Heq. cbn [nodes] in Heq.
  assert (Hlook : <[l := <[i := new]> row]> (nodes d) !! l = Some (<[i := new]> row)).
  { apply list_lookup_insert_eq. apply lookup_lt_Some in Hrow. exact Hrow. }
  rewrite Heq, Hrow in Hlook. injection Hlook as Hrows.
  assert (Hnode : <[i := new]> row !! i = Some new).
  { apply list_lookup_insert_eq. apply lookup_lt_Some in Hold. exact Hold. }
  rewrite <- Hrows, Hold in Hnode. congruence.
Qed.

(** X8. [Validate] rejects a grown tree in which a node above the leaf row
    was replaced by a different node. *)
Theorem Validate_rejects_interior_change (leafs : list Node) (d : TreeData)
    (l i : nat) (row : list Node) (old new : Node) :
  len leafs <= maxLeafs -> grownFrom leafs d ->
  Z.of_nat l < Depth d - 1 ->
  nodes d !! l = Some row -> row !! i = Some old -> new <> old ->
  Validate (replaceNode d l i row new) = Ok false.
Proof.
  intros Hmax Hgrown Hl Hrow Hold Hne.
  pose proof (replaceNode_differs d l i row old new Hrow Hold Hne) as Hdiff.
  rewrite (grownFrom_treeOf leafs d Hmax Hgrown) in *. clear d Hgrown.
  rewrite Depth_treeOf in Hl.
  unfold Validate.
  assert (Hleaf : indexZ (nodes (replaceNode (treeOf leafs) l i row new))
                    (Depth (replaceNode (treeOf leafs) l i row new) - 1)
                  = Ok leafs).
  { unfold Depth, len, replaceNode. cbn [nodes].
    rewrite length_insert, nodes_treeOf_length.
    replace (Z.of_nat (S (height leafs)) - 1) with (Z.of_nat (height leafs)) by lia.
    rewrite indexZ_nat. unfold index.
    rewrite list_lookup_insert_ne by lia.
    rewrite nodes_treeOf_lookup, rowAt_leafs by lia. reflexivity. }
  rewrite Hleaf. cbn [bind].
  rewrite growTreeHashedLeafs_treeOf by exact Hmax. cbn [bind].
  f_equal. destruct (deepEqual _ _) eqn:Heq; [| reflexivity].
  apply deepEqual_true in Heq. contradiction.
Qed.

Lemma Validate_rejects_interior_change_witness :
  grownFrom (hashList abc) abcTree
  /\ Validate (replaceNode abcTree 0 0
                 [computeNode
                    (computeNode (truncatedHash (bytes_of_string "a"))
                                 (truncatedHash (bytes_of_string "b")))
                    (truncatedHash (data (truncatedHash (bytes_of_string "c"))))]
                 zeroNode)
     = Ok false.
Proof.
  split; [exact abc_grown |].
  apply (Validate_rejects_interior_change (hashList abc) abcTree 0 0 _
           (computeNode
              (computeNode (truncatedHash (bytes_of_string "a"))
                           (truncatedHash (bytes_of_string "b")))
              (truncatedHash (data (truncatedHash (bytes_of_string "c")))))
           zeroNode abc_fits abc_grown).
  - vm_compute. reflexivity.
  - vm_compute. reflexivity.
  - reflexivity.
  - vm_compute. discriminate.
Defined.

Lemma ValidateFromLeafs_decides (d : TreeData) (leafData : list (list byte)) :
  len leafData <= maxLeafs ->
  exists b, ValidateFromLeafs d leafData = Ok b
            /\ (b = true <-> GrowTree leafData = Ok d).
Proof.
  intros Hmax. unfold ValidateFromLeafs.
  destruct leafData as [| x rest].
  - exists false. split; [reflexivity |]. split; discriminate.
  - rewrite GrowTree_treeOf by (discriminate || exact Hmax).
    eexists. split; [reflexivity |].
    rewrite deepEqual_true. split.
    + intros Heq. destruct d as [rows]. cbn [nodes] in Heq. subst rows.
      reflexivity.
    + intros Heq. injection Heq as <-. reflexivity.
Qed.

(** X9. [ValidateFromLeafs] never panics: it answers [true] exactly when
    the tree is the one [GrowTree] builds from the given leaves, and
    [false] otherwise, the empty input included. *)
Theorem ValidateFromLeafs_accepts_exactly (d : TreeData)
    (leafData : list (list byte)) :
  len leafData <= maxLeafs ->
  (exists b, ValidateFromLeafs d leafData = Ok b
             /\ (b = true <-> GrowTree leafData = Ok d))
  /\ (leafData = [] -> ValidateFromLeafs d leafData = Ok false).
Proof.
  intros Hmax. split; [apply ValidateFromLeafs_decides; exact Hmax |].
  intros ->. reflexivity.
Qed.

Lemma ValidateFromLeafs_accepts_exactly_witness :
  len abc <= maxLeafs
  /\ ValidateFromLeafs abcTree abc = Ok true
  /\ ValidateFromLeafs abcTree abcd = Ok false.
Proof.
  assert (Hmax : len abc <= maxLeafs) by (vm_compute; discriminate).
  split; [exact Hmax |].
  split.
  - destruct (ValidateFromLeafs_accepts_exactly abcTree abc Hmax)
      as [(b & Hrun & Hiff) _].
    rewrite Hrun. f_equal. apply Hiff. vm_compute. reflexivity.
  - vm_compute. reflexivity.
Defined.

(** X10. [ValidateFromLeafs] rejects, against the original leaves, a grown
    tree in which any node, leaf or interior, was replaced by a different
    node. *)
Theorem ValidateFromLeafs_rejects_change (leafData : list (list byte))
    (d : TreeData) (l i : nat) (row : list Node) (old new : Node) :
  len leafData <= maxLeafs -> GrowTree leafData = Ok d ->
  nodes d !! l = Some row -> row !! i = Some old -> new <> old ->
  ValidateFromLeafs (replaceNode d l i row new) leafData = Ok false.
Proof.
  intros Hmax Hgrow Hrow Hold Hne.
  destruct (ValidateFromLeafs_decides (replaceNode d l i row new) leafData Hmax)
    as (b & Hrun & Hiff).
  rewrite Hrun. f_equal. destruct b; [| reflexivity].
  exfalso. destruct Hiff as [Hsame _]. specialize (Hsame eq_refl).
  rewrite Hgrow in Hsame. injection Hsame as Hsame.
  apply (replaceNode_differs d l i row old new Hrow Hold Hne).
  rewrite <- Hsame. reflexivity.
Qed.

Lemma ValidateFromLeafs_rejects_change_witness :
  GrowTree abc = Ok abcTree
  /\ ValidateFromLeafs
       (replaceNode abcTree 2 1 (hashList abc) (truncatedHash (bytes_of_string "x")))
       abc
     = Ok false.
Proof.
  assert (Hgrow : GrowTree abc = Ok abcTree) by (vm_compute; reflexivity).
  split; [exact Hgrow |].
  apply (ValidateFromLeafs_rejects_change abc abcTree 2 1 (hashList abc)
           (truncatedHash (bytes_of_string "b"))
           (truncatedHash (bytes_of_string "x"))).
  - vm_compute. discriminate.
  - exact Hgrow.
  - vm_compute. reflexivity.
  - reflexivity.
  - vm_compute. discriminate.
Defined.

(** *** Proofs of leaves *)

(** X11. In a tree grown from at least two leaf byte-strings, none of
    whose nodes is the all-zero marker, the proof [ConstructProof] returns
    for leaf [i] makes [ValidateLeaf] accept the bytes of that leaf against
    the root of the tree and against no other node. *)
Theorem ValidateLeaf_accepts_only_root (leafData : list (list byte)) (d : TreeData)
    (i : nat) (bytes : list byte) (root candidate : Node) :
  len leafData <= maxLeafs ->
  GrowTree leafData = Ok d ->
  noZeroNode d ->
  2 <= Depth d ->
  leafData !! i = Some bytes ->
  GetRoot d = Ok root ->
  exists p, ConstructProof d (Depth d - 1) (Z.of_nat i) = Ok p
            /\ ValidateLeaf p bytes candidate = Ok (bool_decide (candidate = root)).
Proof.
  intros Hmax Hgrow Hnz Hdepth Hleaf Hroot.
  destruct (GrowTree_inv leafData d Hmax Hgrow) as (Hne & Hmax' & ->).
  set (leafs := hashList leafData) in *.
  rewrite Depth_treeOf in *.
  replace (Z.of_nat (height leafs) + 1 - 1) with (Z.of_nat (height leafs)) by lia.
  apply GetRoot_treeOf in Hroot.
  assert (Hnode : rowAt leafs (height leafs) !! i = Some (truncatedHash bytes)).
  { rewrite rowAt_leafs. subst leafs. unfold hashList.
    rewrite list_lookup_fmap, Hleaf. reflexivity. }
  assert (Hin : 0 <= Z.of_nat i < len (rowAt leafs (height leafs))).
  { apply lookup_lt_Some in Hnode. unfold len. lia. }
  exists (mkProof (siblings leafs (height leafs) (Z.of_nat i))
            (Z.of_nat (height leafs)) (Z.of_nat i)).
  split; [apply ConstructProof_treeOf; [lia | exact Hin] |].
  unfold ValidateLeaf, ValidateSubtree. cbn [lvl idx].
  rewrite <- (app_nil_r (siblings leafs (height leafs) (Z.of_nat i))).
  rewrite Nat2Z.id.
  rewrite (validateLoop_root leafs root Hne Hmax' Hroot); try lia.
  - cbn [bind].
    destruct (decide (data root <> data candidate)) as [Hdiff | Hsame].
    + rewrite bool_decide_eq_false_2; [reflexivity |]. congruence.
    + rewrite bool_decide_eq_true_2; [reflexivity |].
      destruct root as [r], candidate as [c]. cbn [data] in Hsame.
      destruct (decide (r = c)) as [-> | Hrc]; [reflexivity | contradiction].
  - intros l Hl. unfold noZeroNode in Hnz.
    rewrite Forall_lookup in Hnz. apply (Hnz l).
    apply nodes_treeOf_lookup. lia.
  - rewrite Nat2Z.id. exact Hnode.
Qed.

Lemma ValidateLeaf_accepts_only_root_witness :
  GrowTree abc = Ok abcTree
  /\ exists p, ConstructProof abcTree (Depth abcTree - 1) (Z.of_nat 1) = Ok p
       /\ ValidateLeaf p (bytes_of_string "b") zeroNode
          = Ok (bool_decide
                  (zeroNode
                   = computeNode
                       (computeNode (truncatedHash (bytes_of_string "a"))
                                    (truncatedHash (bytes_of_string "b")))
                       (truncatedHash (data (truncatedHash (bytes_of_string "c")))))).
Proof.
  assert (Hgrow : GrowTree abc = Ok abcTree) by (vm_compute; reflexivity).
  split; [exact Hgrow |].
  apply (ValidateLeaf_accepts_only_root abc abcTree 1 (bytes_of_string "b")).
  - vm_compute. discriminate.
  - exact Hgrow.
  - apply (bool_decide_unpack (noZeroNode abcTree)). vm_compute. exact I.
  - vm_compute. discriminate.
  - reflexivity.
  - vm_compute. reflexivity.
Defined.

(** *** Proof validation *)



(** *** Batched proofs *)

(** The scan stops at the first index where the paths differ, or at the
    bound. *)
Lemma commonLoop_stops (n : nat) :
  forall (ctr : nat) (left right : list Node) (k : nat),
    commonLoop n ctr left right = Ok k ->
    (exists l r, left !! k = Some l /\ right !! k = Some r /\ l <> r)
    \/ k = (ctr + n)%nat.
Proof.
  induction n as [| n IH]; intros ctr left right k Hrun.
  - cbn [commonLoop] in Hrun. injection Hrun as <-. right. lia.
  - cbn [commonLoop] in Hrun. unfold index in Hrun.
    destruct (left !! ctr) as [l |] eqn:Hl; [| discriminate].
    destruct (right !! ctr) as [r |] eqn:Hr; [| discriminate].
    cbn [bind] in Hrun.
    destruct (decide (l <> r)) as [Hdiff | Hsame].
    + injection Hrun as <-. left. eauto.
    + apply IH in Hrun as [Hstop | ->]; [left; exact Hstop | right; lia].
Qed.

(** X12. Whenever [ConstructBatchedProof] returns, it records the two
    endpoints, the common path followed by either suffix is the path of the
    single proof of that endpoint, and the common path is the longest
    shared prefix: the suffixes are both empty or start with different
    nodes. *)
Theorem batched_proof_splits_paths (d : TreeData)
    (leftLvl leftIdx rightLvl rightIdx : Z) (b : BatchedProofData) :
  ConstructBatchedProof d leftLvl leftIdx rightLvl rightIdx = Ok b ->
  exists leftProof rightProof,
    ConstructProof d leftLvl leftIdx = Ok leftProof
    /\ ConstructProof d rightLvl rightIdx = Ok rightProof
    /\ commonPath b ++ leftPath b = path leftProof
    /\ commonPath b ++ rightPath b = path rightProof
    /\ (MerkleTree.leftLvl b, MerkleTree.leftIdx b,
        MerkleTree.rightLvl b, MerkleTree.rightIdx b)
       = (leftLvl, leftIdx, rightLvl, rightIdx)
    /\ ((leftPath b = [] /\ rightPath b = [])
        \/ exists l r, leftPath b !! 0%nat = Some l
                       /\ rightPath b !! 0%nat = Some r /\ l <> r).
Proof.
  unfold ConstructBatchedProof. intros Hrun.
  destruct ((leftLvl <? 1) || (leftLvl >=? Depth d) || (rightLvl <? 1)
            || (rightLvl >=? Depth d)); [discriminate |].
  destruct ((leftIdx <? 0) || (rightIdx <? 0)); [discriminate |].
  destruct (ConstructProof d leftLvl leftIdx) as [leftProof | |]; try discriminate.
  destruct (ConstructProof d rightLvl rightIdx) as [rightProof | |]; try discriminate.
  cbn [bind] in Hrun.
  set (left := path leftProof) in *. set (right := path rightProof) in *.
  destruct (commonLoop (Z.to_nat (max (len left) (len right))) 0 left right)
    as [ctr | |] eqn:Hctr; try discriminate.
  cbn [bind] in Hrun. unfold sliceFrom, sliceTo in Hrun.
  destruct (decide (ctr <= length left)%nat) as [Hleft |]; [| discriminate].
  destruct (decide (ctr <= length right)%nat) as [Hright |]; [| discriminate].
  cbn [bind] in Hrun. injection Hrun as <-.
  cbn [commonPath leftPath rightPath MerkleTree.leftLvl MerkleTree.leftIdx
       MerkleTree.rightLvl MerkleTree.rightIdx].
  exists leftProof, rightProof.
  split; [reflexivity |]. split; [reflexivity |].
  pose proof (commonLoop_agree _ 0 left right ctr eq_refl Hctr) as Hagree.
  split; [rewrite <- Hagree; apply take_drop |].
  split; [apply take_drop |].
  split; [reflexivity |].
  apply commonLoop_stops in Hctr as [(l & r & Hl & Hr & Hdiff) | Hend].
  - right. exists l, r. rewrite !lookup_drop, Nat.add_0_r. auto.
  - left. unfold max, len in Hend.
    split; apply drop_ge; destruct (Z.gtb_spec (Z.of_nat (length left))
                                      (Z.of_nat (length right))); lia.
Qed.

Lemma batched_proof_splits_paths_witness :
  exists b leftProof,
    ConstructBatchedProof abcdTree 2 2 2 3 = Ok b
    /\ ConstructProof abcdTree 2 2 = Ok leftProof
    /\ commonPath b ++ leftPath b = path leftProof
    /\ length (commonPath b) = 1%nat.
Proof.
  destruct (ConstructBatchedProof abcdTree 2 2 2 3) as [b | |] eqn:Hrun;
    [| vm_compute in Hrun; discriminate Hrun | vm_compute in Hrun; discriminate Hrun].
  destruct (batched_proof_splits_paths abcdTree 2 2 2 3 b Hrun)
    as (leftProof & rightProof & Hleft & _ & Hsplit & _).
  exists b, leftProof. split; [reflexivity |].
  split; [exact Hleft |]. split; [exact Hsplit |].
  vm_compute in Hrun. injection Hrun as <-. reflexivity.
Defined.

Lemma proofLoop_length (d : TreeData) (c : nat) :
  forall (i : Z) (proof res : list Node),
    proofLoop d c i proof = Ok res -> length res = length proof.
Proof.
  induction c as [| c IH]; intros i proof res Hrun.
  - cbn [proofLoop] in Hrun. congruence.
  - cbn [proofLoop] in Hrun.
    destruct (index (nodes d) (S c)) as [row | |]; try discriminate.
    cbn [bind] in Hrun.
    destruct (len row <=? i); [discriminate |].
    destruct (len row >? getSiblingIdx i).
    + destruct (indexZ row (getSiblingIdx i)) as [sibling | |]; try discriminate.
      cbn [bind] in Hrun. unfold assign in Hrun.
      destruct (decide (c < length proof)%nat); [| discriminate].
      cbn [bind] in Hrun. apply IH in Hrun.
      rewrite Hrun, length_insert. reflexivity.
    + cbn [bind] in Hrun. apply IH in Hrun. exact Hrun.
Qed.

(** What a returned single proof tells about its arguments. *)
Lemma ConstructProof_returns (d : TreeData) (lvl idx : Z) (p : ProofData) :
  ConstructProof d lvl idx = Ok p ->
  1 <= lvl < Depth d /\ 0 <= idx /\ length (path p) = Z.to_nat lvl.
Proof.
  unfold ConstructProof. intros Hrun.
  destruct (Z.ltb_spec lvl 1); [discriminate |].
  destruct (Z.geb_spec lvl (Depth d)); [discriminate |].
  cbn [orb] in Hrun.
  destruct (Z.ltb_spec idx 0); [discriminate |].
  unfold make in Hrun. destruct (Z.ltb_spec lvl 0); [lia |].
  cbn [bind] in Hrun.
  destruct (proofLoop d (Z.to_nat lvl) idx (repeat zeroNode (Z.to_nat lvl)))
    as [res | |] eqn:Hloop; try discriminate.
  cbn [bind] in Hrun. injection Hrun as <-. cbn [path].
  apply proofLoop_length in Hloop. rewrite Hloop, repeat_length.
  split; [lia |]. split; [lia | reflexivity].
Qed.

Lemma commonLoop_equal_lengths (left right : list Node) (n : nat) :
  length left = length right ->
  forall ctr, (ctr + n = length left)%nat ->
    exists k, commonLoop n ctr left right = Ok k /\ (k <= length left)%nat.
Proof.
  intros Hsame. induction n as [| n IH]; intros ctr Hbound.
  - exists ctr. split; [reflexivity | lia].
  - cbn [commonLoop]. unfold index.
    destruct (left !! ctr) as [l |] eqn:Hl.
    2: { apply lookup_ge_None in Hl. lia. }
    destruct (right !! ctr) as [r |] eqn:Hr.
    2: { apply lookup_ge_None in Hr. lia. }
    cbn [bind]. destruct (decide (l <> r)).
    + exists ctr. split; [reflexivity | lia].
    + apply IH. lia.
Qed.

(** X13. For two endpoints on one level, [ConstructBatchedProof] returns a
    batched proof whenever [ConstructProof] returns a proof for each. *)
Theorem batched_proof_same_level (d : TreeData) (lvl leftIdx rightIdx : Z)
    (leftProof rightProof : ProofData) :
  ConstructProof d lvl leftIdx = Ok leftProof ->
  ConstructProof d lvl rightIdx = Ok rightProof ->
  exists b, ConstructBatchedProof d lvl leftIdx lvl rightIdx = Ok b.
Proof.
  intros Hleft Hright.
  destruct (ConstructProof_returns d lvl leftIdx leftProof Hleft)
    as (Hlvl & HleftIdx & HleftLen).
  destruct (ConstructProof_returns d lvl rightIdx rightProof Hright)
    as (_ & HrightIdx & HrightLen).
  unfold ConstructBatchedProof. rewrite Hleft, Hright.
  destruct (Z.ltb_spec lvl 1); [lia |].
  destruct (Z.geb_spec lvl (Depth d)); [lia |].
  destruct (Z.ltb_spec leftIdx 0); [lia |].
  destruct (Z.ltb_spec rightIdx 0); [lia |].
  cbn [orb bind].
  assert (Hmax : Z.to_nat (max (len (path leftProof)) (len (path rightProof)))
                 = length (path leftProof)).
  { unfold max, len. rewrite HleftLen, HrightLen.
    destruct (Z.gtb_spec (Z.of_nat (Z.to_nat lvl)) (Z.of_nat (Z.to_nat lvl))); lia. }
  rewrite Hmax.
  destruct (commonLoop_equal_lengths (path leftProof) (path rightProof)
              (length (path leftProof)) ltac:(lia) 0%nat ltac:(lia))
    as (k & Hk & Hle).
  rewrite Hk. cbn [bind]. unfold sliceFrom, sliceTo.
  destruct (decide (k <= length (path leftProof))%nat); [| lia].
  destruct (decide (k <= length (path rightProof))%nat); [| lia].
  cbn [bind]. eauto.
Qed.

Lemma batched_proof_same_level_witness :
  exists leftProof rightProof b,
    ConstructProof abcTree 2 0 = Ok leftProof
    /\ ConstructProof abcTree 2 2 = Ok rightProof
    /\ ConstructBatchedProof abcTree 2 0 2 2 = Ok b.
Proof.
  destruct (ConstructProof abcTree 2 0) as [leftProof | |] eqn:Hleft;
    [| vm_compute in Hleft; discriminate Hleft | vm_compute in Hleft; discriminate Hleft].
  destruct (ConstructProof abcTree 2 2) as [rightProof | |] eqn:Hright;
    [| vm_compute in Hright; discriminate Hright
     | vm_compute in Hright; discriminate Hright].
  destruct (batched_proof_same_level abcTree 2 0 2 leftProof rightProof Hleft Hright)
    as [b Hb].
  exists leftProof, rightProof, b. auto.
Defined.

(** The loop of [ConstructProof] stays inside the tree and the proof slice,
    whatever the tree holds. *)
Lemma proofLoop_never_panics (d : TreeData) (c : nat) :
  forall (i : Z) (proof : list Node),
    (c < length (nodes d))%nat -> (c <= length proof)%nat -> 0 <= i ->
    proofLoop d c i proof <> Panic.
Proof.
  induction c as [| c IH]; intros i proof Hc Hproof Hi; [discriminate |].
  cbn [proofLoop]. unfold index at 1.
  destruct (nodes d !! S c) as [row |] eqn:Hrow.
  2: { apply lookup_ge_None in Hrow. lia. }
  cbn [bind].
  destruct (Z.leb_spec (len row) i) as [_ | Hin]; [discriminate |].
  pose proof (getSiblingIdx_nonneg i Hi) as Hsib.
  destruct (Z.gtb_spec (len row) (getSiblingIdx i)) as [Hstored | _].
  - unfold indexZ, index.
    destruct (Z.ltb_spec (getSiblingIdx i) 0) as [Hneg | _]; [lia |].
    destruct (row !! Z.to_nat (getSiblingIdx i)) as [sibling |] eqn:Hlook.
    2: { apply lookup_ge_None in Hlook. unfold len in Hstored. lia. }
    cbn [bind]. unfold assign.
    destruct (decide (c < length proof)%nat) as [_ | Hout]; [| lia].
    cbn [bind]. apply IH; [lia | rewrite length_insert; lia |].
    pose proof (Z.quot_pos i 2 Hi ltac:(lia)). lia.
  - cbn [bind]. apply IH; [lia | lia |].
    pose proof (Z.quot_pos i 2 Hi ltac:(lia)). lia.
Qed.

Lemma ConstructProof_total (d : TreeData) (lvl idx : Z) :
  ConstructProof d lvl idx <> Panic.
Proof.
  unfold ConstructProof.
  destruct (Z.ltb_spec lvl 1); [discriminate |].
  destruct (Z.geb_spec lvl (Depth d)) as [| Hlvl]; [discriminate |].
  cbn [orb].
  destruct (Z.ltb_spec idx 0) as [| Hidx]; [discriminate |].
  unfold make. destruct (Z.ltb_spec lvl 0); [lia |].
  cbn [bind].
  pose proof (proofLoop_never_panics d (Z.to_nat lvl) idx
                (repeat zeroNode (Z.to_nat lvl))) as Hloop.
  destruct (proofLoop d (Z.to_nat lvl) idx (repeat zeroNode (Z.to_nat lvl)));
    [discriminate | discriminate |].
  exfalso. apply Hloop; [unfold Depth, len in Hlvl; lia | | lia | reflexivity].
  rewrite repeat_length. lia.
Qed.

(** X20. On any tree value, grown or not, [ConstructProof] returns a proof
    or an error and never panics; a returned proof records the requested
    level and index and carries a path of [lvl] entries. *)
Theorem ConstructProof_never_panics (d : TreeData) (lvl idx : Z) :
  ConstructProof d lvl idx <> Panic
  /\ (forall p, ConstructProof d lvl idx = Ok p ->
        MerkleTree.lvl p = lvl /\ MerkleTree.idx p = idx /\ len (path p) = lvl).
Proof.
  split; [apply ConstructProof_total |].
  intros p Hrun.
  destruct (ConstructProof_returns d lvl idx p Hrun) as (Hlvl & _ & Hlen).
  unfold ConstructProof in Hrun.
  destruct ((lvl <? 1) || (lvl >=? Depth d)); [discriminate |].
  destruct (idx <? 0); [discriminate |].
  destruct (make zeroNode lvl) as [proof | |]; try discriminate.
  cbn [bind] in Hrun.
  destruct (proofLoop d (Z.to_nat lvl) idx proof) as [proof' | |]; try discriminate.
  cbn [bind] in Hrun. injection Hrun as <-.
  cbn [MerkleTree.lvl MerkleTree.idx path] in *.
  split; [reflexivity |]. split; [reflexivity |]. unfold len. lia.
Qed.

Lemma commonLoop_no_error (n : nat) :
  forall (ctr : nat) (left right : list Node) (e : error),
    commonLoop n ctr left right <> Err e.
Proof.
  induction n as [| n IH]; intros ctr left right e; [discriminate |].
  cbn [commonLoop]. unfold index.
  destruct (left !! ctr); [| discriminate].
  destruct (right !! ctr); [| discriminate].
  cbn [bind]. destruct (decide (_ <> _)); [discriminate | apply IH].
Qed.

(** X21. [ConstructBatchedProof] returns an error exactly when
    [ConstructProof] refuses one of the two endpoints. *)
Theorem batched_proof_errors (d : TreeData) (leftLvl leftIdx rightLvl rightIdx : Z) :
  (exists e, ConstructBatchedProof d leftLvl leftIdx rightLvl rightIdx = Err e)
  <-> ((exists e, ConstructProof d leftLvl leftIdx = Err e)
       \/ (exists e, ConstructProof d rightLvl rightIdx = Err e)).
Proof.
  pose proof (ConstructProof_total d leftLvl leftIdx) as HleftTotal.
  pose proof (ConstructProof_total d rightLvl rightIdx) as HrightTotal.
  unfold ConstructBatchedProof.
  destruct (Z.ltb_spec leftLvl 1) as [Hl1 | Hl1].
  { cbn [orb]. split; [intros _; left | eauto].
    unfold ConstructProof. destruct (Z.ltb_spec leftLvl 1); [cbn [orb]; eauto | lia]. }
  destruct (Z.geb_spec leftLvl (Depth d)) as [Hl2 | Hl2].
  { cbn [orb]. split; [intros _; left | eauto].
    unfold ConstructProof. destruct (Z.ltb_spec leftLvl 1); [lia |].
    destruct (Z.geb_spec leftLvl (Depth d)); [cbn [orb]; eauto | lia]. }
  destruct (Z.ltb_spec rightLvl 1) as [Hr1 | Hr1].
  { cbn [orb]. split; [intros _; right | eauto].
    unfold ConstructProof. destruct (Z.ltb_spec rightLvl 1); [cbn [orb]; eauto | lia]. }
  destruct (Z.geb_spec rightLvl (Depth d)) as [Hr2 | Hr2].
  { cbn [orb]. split; [intros _; right | eauto].
    unfold ConstructProof. destruct (Z.ltb_spec rightLvl 1); [lia |].
    destruct (Z.geb_spec rightLvl (Depth d)); [cbn [orb]; eauto | lia]. }
  cbn [orb].
  destruct (Z.ltb_spec leftIdx 0) as [Hli | Hli].
  { cbn [orb]. split; [intros _; left | eauto].
    unfold ConstructProof. destruct (Z.ltb_spec leftLvl 1); [lia |].
    destruct (Z.geb_spec leftLvl (Depth d)); [lia |]. cbn [orb].
    destruct (Z.ltb_spec leftIdx 0); [eauto | lia]. }
  destruct (Z.ltb_spec rightIdx 0) as [Hri | Hri].
  { cbn [orb]. split; [intros _; right | eauto].
    unfold ConstructProof. destruct (Z.ltb_spec rightLvl 1); [lia |].
    destruct (Z.geb_spec rightLvl (Depth d)); [lia |]. cbn [orb].
    destruct (Z.ltb_spec rightIdx 0); [eauto | lia]. }
  cbn [orb].
  destruct (ConstructProof d leftLvl leftIdx) as [leftProof | e |];
    [| cbn [bind]; split; eauto | contradiction].
  destruct (ConstructProof d rightLvl rightIdx) as [rightProof | e |];
    [| cbn [bind]; split; eauto | contradiction].
  cbn [bind].
  split.
  - intros [e He]. exfalso.
    destruct (commonLoop _ 0 (path leftProof) (path rightProof)) as [ctr | e' |]
      eqn:Hscan; [| apply commonLoop_no_error in Hscan; contradiction
                  | discriminate He].
    cbn [bind] in He. unfold sliceFrom, sliceTo in He.
    destruct (decide (ctr <= length (path leftProof))%nat); [| discriminate He].
    destruct (decide (ctr <= length (path rightProof))%nat); [| discriminate He].
    discriminate He.
  - intros [[e He] | [e He]]; discriminate He.
Qed.

(** The ancestor [k] levels above a position of a grown tree is a position
    of the tree. *)
Lemma ancestor_in_range (leafs : list Node) (k : nat) :
  forall (c : nat) (i : Z),
    (c + k <= height leafs)%nat -> 0 <= i < len (rowAt leafs (c + k)) ->
    0 <= i / 2 ^ Z.of_nat k < len (rowAt leafs c).
Proof.
  induction k as [| k IH]; intros c i Hc Hi.
  - rewrite Nat.add_0_r in Hi. change (2 ^ Z.of_nat 0) with 1.
    rewrite Z.div_1_r. exact Hi.
  - replace (c + S k)%nat with (S (c + k)) in * by lia.
    pose proof (parent_in_range leafs (c + k) i Hc Hi) as Hparent.
    specialize (IH c (Z.quot i 2) ltac:(lia) Hparent).
    replace (i / 2 ^ Z.of_nat (S k)) with (Z.quot i 2 / 2 ^ Z.of_nat k); [exact IH |].
    rewrite Nat2Z.inj_succ, Z.pow_succ_r by lia.
    rewrite <- Z.div_div by (try apply Z.pow_pos_nonneg; lia).
    f_equal. lia.
Qed.

(** The path of a position starts with the path of each of its ancestors. *)
Lemma siblings_extend (leafs : list Node) (k : nat) :
  forall (c : nat) (i : Z),
    0 <= i ->
    exists extra, length extra = k
      /\ siblings leafs (c + k) i = siblings leafs c (i / 2 ^ Z.of_nat k) ++ extra.
Proof.
  induction k as [| k IH]; intros c i Hi.
  - exists []. split; [reflexivity |].
    rewrite Nat.add_0_r, app_nil_r. change (2 ^ Z.of_nat 0) with 1.
    rewrite Z.div_1_r. reflexivity.
  - replace (c + S k)%nat with (S (c + k)) by lia. cbn [siblings].
    destruct (IH c (Z.quot i 2) ltac:(lia)) as (extra & Hlen & Hpath).
    exists (extra ++ [sibOrZero (rowAt leafs (S (c + k))) i]).
    split; [rewrite length_app; cbn [length]; lia |].
    rewrite Hpath, <- app_assoc. do 2 f_equal.
    rewrite Nat2Z.inj_succ, Z.pow_succ_r by lia.
    rewrite <- Z.div_div by (try apply Z.pow_pos_nonneg; lia).
    f_equal. lia.
Qed.

(** X14. On a grown tree [ConstructBatchedProof] panics whenever the left
    endpoint is a proper ancestor of the right endpoint: the path of the
    ancestor is a strict prefix of the other, and the scan, bounded by the
    longer path, indexes the shorter one out of range. *)
Theorem batched_proof_of_ancestor_panics (leafs : list Node) (d : TreeData)
    (leftLvl leftIdx rightLvl rightIdx : Z) :
  len leafs <= maxLeafs -> grownFrom leafs d ->
  1 <= leftLvl -> leftLvl < rightLvl -> rightLvl < Depth d ->
  0 <= rightIdx < width d rightLvl ->
  leftIdx = rightIdx / 2 ^ (rightLvl - leftLvl) ->
  ConstructBatchedProof d leftLvl leftIdx rightLvl rightIdx = Panic.
Proof.
  intros Hmax Hgrown Hlow Hbelow Hdepth Hright ->.
  rewrite (grownFrom_treeOf leafs d Hmax Hgrown) in *. clear d Hgrown.
  rewrite Depth_treeOf in *. rewrite width_treeOf in Hright by lia.
  set (c := Z.to_nat leftLvl). set (k := Z.to_nat (rightLvl - leftLvl)).
  assert (Hc : leftLvl = Z.of_nat c) by (subst c; lia).
  assert (Hk : rightLvl - leftLvl = Z.of_nat k) by (subst k; lia).
  assert (Hck : rightLvl = Z.of_nat (c + k)) by lia.
  rewrite Hk. rewrite Hck in Hright. rewrite Nat2Z.id in Hright.
  pose proof (ancestor_in_range leafs k c rightIdx ltac:(lia) Hright) as Hleft.
  unfold ConstructBatchedProof. rewrite Depth_treeOf.
  destruct (Z.ltb_spec leftLvl 1); [lia |].
  destruct (Z.geb_spec leftLvl (Z.of_nat (height leafs) + 1)); [lia |].
  destruct (Z.ltb_spec rightLvl 1); [lia |].
  destruct (Z.geb_spec rightLvl (Z.of_nat (height leafs) + 1)); [lia |].
  destruct (Z.ltb_spec (rightIdx / 2 ^ Z.of_nat k) 0); [lia |].
  destruct (Z.ltb_spec rightIdx 0); [lia |].
  cbn [orb].
  rewrite Hc at 1. rewrite ConstructProof_treeOf by lia. cbn [bind].
  rewrite Hck at 1. rewrite ConstructProof_treeOf by lia. cbn [bind path].
  destruct (siblings_extend leafs k c rightIdx ltac:(lia)) as (extra & Hlen & Hpath).
  rewrite Hpath.
  assert (Hextra : extra <> []) by (destruct extra; [cbn in Hlen; lia | discriminate]).
  assert (Hbound : Z.to_nat (max (len (siblings leafs c (rightIdx / 2 ^ Z.of_nat k)))
                               (len (siblings leafs c (rightIdx / 2 ^ Z.of_nat k) ++ extra)))
                   = length (siblings leafs c (rightIdx / 2 ^ Z.of_nat k) ++ extra)).
  { unfold max, len. rewrite length_app.
    destruct (Z.gtb_spec (Z.of_nat (length (siblings leafs c (rightIdx / 2 ^ Z.of_nat k))))
                (Z.of_nat (length (siblings leafs c (rightIdx / 2 ^ Z.of_nat k))
                           + length extra))); lia. }
  rewrite Hbound.
  pose proof (commonLoop_prefix_panics extra Hextra []
                (siblings leafs c (rightIdx / 2 ^ Z.of_nat k))) as Hpanic.
  cbn [app length] in Hpanic. rewrite Hpanic. reflexivity.
Qed.

Lemma batched_proof_of_ancestor_panics_witness :
  grownFrom (hashList abc) abcTree
  /\ ConstructBatchedProof abcTree 1 1 2 2 = Panic.
Proof.
  split; [exact abc_grown |].
  apply (batched_proof_of_ancestor_panics (hashList abc) abcTree 1 1 2 2
           abc_fits abc_grown).
  - lia.
  - lia.
  - vm_compute. reflexivity.
  - vm_compute. split; [discriminate | reflexivity].
  - reflexivity.
Defined.

End TreeProps.

(** ** Further properties of the inclusion verifier *)
Module VerifierProps.
Import MerkleTree DataSegment InclusionSpec.

(** The size derived from a proof of depth [depth] for units of [unit]
    bytes, as [uint64] arithmetic computes it. *)
Definition derivedSize (depth unit : Z) : Z :=
  uint64 (uint64 (Z.shiftl 1 depth) * unit).

(** What [ComputeExpectedAuxData] does once steps 1 to 4 went through and
    the replay of the index proof handed back a root. *)
Lemma run_after_index_proof {C : Collaborators}
    (ip : InclusionProof) (veriferData : InclusionVerifierData)
    (commPc : list byte) (nodeCommPc commPa commPa2 : Node)
    (entry : DataSegmentIndexEntry) :
  reachesIndexProof ip veriferData commPc nodeCommPc commPa entry ->
  fst (ComputeRoot (ProofIndex ip) (truncatedHash (SerializeFr32 entry))) = Some commPa2 ->
  0 <= Depth (ProofIndex ip) ->
  ComputeExpectedAuxData ip veriferData
  = if decide (commPa2 <> commPa) then
      Err (ErrNew ("aggregator's data commiements don't match: "
                     ++ hex (data commPa) ++ " != " ++ hex (data commPa2)))
    else if negb (derivedSize (Depth (ProofIndex ip)) BytesInDataSegmentIndexEntry
                  =? derivedSize (Depth (ProofSubtree ip)) (SizePc veriferData))
    then Err (ErrNew "aggregator's data size doesn't match")
    else match PieceCommitmentV1ToCID (data commPa) with
         | (_, Some e) => Err (ErrWrap "converting raw commiement to CID" e)
         | (cidPa, None) =>
             Ok (mkAuxData cidPa (derivedSize (Depth (ProofSubtree ip))
                                    (SizePc veriferData)))
         end.
Proof.
  intros (Hcid & Hnode & Hsub & Hd1 & Hentry) Hidx Hd2.
  unfold ComputeExpectedAuxData, shl1_uint64, derivedSize.
  rewrite Hcid, Hnode. cbn [bind]. rewrite Hsub.
  destruct (Z.ltb_spec (Depth (ProofSubtree ip)) 0) as [Hneg | _]; [lia |].
  cbn [bind]. rewrite Hentry. cbn [deref bind].
  destruct (ComputeRoot (ProofIndex ip) _) as [root2 err2].
  cbn [fst] in Hidx. subst root2. cbn [deref bind].
  destruct (decide (commPa2 <> commPa)); [reflexivity |].
  destruct (Z.ltb_spec (Depth (ProofIndex ip)) 0) as [Hneg | _]; [lia |].
  cbn [bind]. cbv zeta.
  destruct (negb _); [reflexivity |].
  destruct (PieceCommitmentV1ToCID (data commPa)) as [cidPa [e |]]; reflexivity.
Qed.

(** X16. Once the subtree proof replayed and the entry was built, the two
    derivations are cross-checked in this order: a root of the index
    proof that differs from the root of the subtree proof is answered with
    the commitment-mismatch error, and equal roots with sizes that differ
    modulo [2^64] with the size-mismatch error. *)
Theorem cross_check_rejects {C : Collaborators}
    (ip : InclusionProof) (veriferData : InclusionVerifierData)
    (commPc : list byte) (nodeCommPc commPa commPa2 : Node)
    (entry : DataSegmentIndexEntry) :
  reachesIndexProof ip veriferData commPc nodeCommPc commPa entry ->
  fst (ComputeRoot (ProofIndex ip) (truncatedHash (SerializeFr32 entry))) = Some commPa2 ->
  0 <= Depth (ProofIndex ip) ->
  (commPa2 <> commPa ->
   ComputeExpectedAuxData ip veriferData
   = Err (ErrNew ("aggregator's data commiements don't match: "
                    ++ hex (data commPa) ++ " != " ++ hex (data commPa2))))
  /\ (commPa2 = commPa ->
      derivedSize (Depth (ProofIndex ip)) BytesInDataSegmentIndexEntry
      <> derivedSize (Depth (ProofSubtree ip)) (SizePc veriferData) ->
      ComputeExpectedAuxData ip veriferData
      = Err (ErrNew "aggregator's data size doesn't match")).
Proof.
  intros Hreach Hidx Hd2.
  rewrite (run_after_index_proof ip veriferData commPc nodeCommPc commPa commPa2
             entry Hreach Hidx Hd2).
  split.
  - intros Hdiff. destruct (decide (commPa2 <> commPa)); [reflexivity | contradiction].
  - intros Hsame Hsizes.
    destruct (decide (commPa2 <> commPa)); [contradiction |].
    destruct (Z.eqb_spec
                (derivedSize (Depth (ProofIndex ip)) BytesInDataSegmentIndexEntry)
                (derivedSize (Depth (ProofSubtree ip)) (SizePc veriferData)));
      [contradiction | reflexivity].
Qed.

(** X17. Whenever [ComputeExpectedAuxData] returns, the CID decoded to a
    node, the subtree proof replayed from it without error to a root, the
    index proof replayed from the leaf of the entry built for
    [Index * SizePc] (modulo [2^64]) and [SizePc] to the same root, the
    returned CID is the encoding of that root, and the returned size is
    both derived sizes. *)
Theorem success_guarantees {C : Collaborators}
    (ip : InclusionProof) (veriferData : InclusionVerifierData)
    (aux : InclusionAuxData) :
  ComputeExpectedAuxData ip veriferData = Ok aux ->
  exists (commPc : list byte) (nodeCommPc commPa : Node)
         (entry : DataSegmentIndexEntry),
    reachesIndexProof ip veriferData commPc nodeCommPc commPa entry
    /\ commitmentsAgree ip commPa entry
    /\ PieceCommitmentV1ToCID (data commPa) = (CommPa aux, None)
    /\ SizePa aux = derivedSize (Depth (ProofSubtree ip)) (SizePc veriferData)
    /\ SizePa aux = derivedSize (Depth (ProofIndex ip)) BytesInDataSegmentIndexEntry.
Proof.
  unfold ComputeExpectedAuxData, shl1_uint64, reachesIndexProof, commitmentsAgree,
    derivedSize.
  destruct (CIDToPieceCommitmentV1 (CommPc veriferData)) as [bytes [e |]] eqn:Hcid;
    [discriminate |].
  destruct (nodeOfSlice bytes) as [node | |] eqn:Hnode; cbn [bind]; try discriminate.
  destruct (ComputeRoot (ProofSubtree ip) node) as [root [e |]] eqn:Hsub;
    [discriminate |].
  destruct (Z.ltb_spec (Depth (ProofSubtree ip)) 0) as [Hneg | Hd1];
    cbn [bind]; [discriminate |].
  destruct (MakeDataSegmentIndexEntry node _ _) as [built [e |]] eqn:Hbuilt;
    [discriminate |].
  destruct built as [built |]; cbn [deref bind]; [| discriminate].
  destruct (ComputeRoot (ProofIndex ip) _) as [[root2 |] err2] eqn:Hidx;
    cbn [deref bind]; [| discriminate].
  destruct root as [root |]; cbn [deref bind]; [| discriminate].
  destruct (decide (root2 <> root)) as [| Hsame]; [discriminate |].
  destruct (Z.ltb_spec (Depth (ProofIndex ip)) 0) as [Hneg | Hd2];
    cbn [bind]; [discriminate |].
  cbv zeta.
  destruct (Z.eqb_spec
              (uint64 (uint64 (Z.shiftl 1 (Depth (ProofIndex ip)))
                       * BytesInDataSegmentIndexEntry))
              (uint64 (uint64 (Z.shiftl 1 (Depth (ProofSubtree ip)))
                       * SizePc veriferData))) as [Hsizes | Hdiff];
    cbn [negb]; [| discriminate].
  destruct (PieceCommitmentV1ToCID (data root)) as [cidPa [e |]] eqn:Hencode;
    [discriminate |].
  intros Hrun. injection Hrun as <-. cbn [CommPa SizePa].
  assert (Hroots : root2 = root).
  { destruct (decide (root2 = root)); [assumption | contradiction]. }
  subst root2.
  exists bytes, node, root, built.
  split; [auto |]. split; [rewrite Hidx; auto |].
  split; [exact Hencode |]. split; [reflexivity | symmetry; exact Hsizes].
Qed.

(** X18. As long as [SizePc] is a [uint64] and neither product leaves the
    [uint64] range, a returned [SizePa] is [2^depth * SizePc] for the
    subtree proof and [2^depth * 64] for the index proof, exactly. *)
Theorem sizes_exact_in_range {C : Collaborators}
    (ip : InclusionProof) (veriferData : InclusionVerifierData)
    (aux : InclusionAuxData) :
  ComputeExpectedAuxData ip veriferData = Ok aux ->
  0 <= SizePc veriferData < 2 ^ 64 ->
  2 ^ Depth (ProofSubtree ip) < 2 ^ 64 ->
  2 ^ Depth (ProofSubtree ip) * SizePc veriferData < 2 ^ 64 ->
  2 ^ Depth (ProofIndex ip) * 64 < 2 ^ 64 ->
  SizePa aux = 2 ^ Depth (ProofSubtree ip) * SizePc veriferData
  /\ SizePa aux = 2 ^ Depth (ProofIndex ip) * 64.
Proof.
  intros Hrun Hsize Hpow1 Hfit1 Hfit2.
  destruct (returned_sizes ip veriferData aux Hrun)
    as (Hsub & Hidx & Hd1 & Hd2 & _).
  assert (Hp1 : 0 < 2 ^ Depth (ProofSubtree ip)) by (apply Z.pow_pos_nonneg; lia).
  assert (Hp2 : 0 < 2 ^ Depth (ProofIndex ip)) by (apply Z.pow_pos_nonneg; lia).
  rewrite !Z.shiftl_1_l in *. unfold BytesInDataSegmentIndexEntry, BytesInNode in Hidx.
  change (2 * 32) with 64 in Hidx.
  rewrite (uint64_small (2 ^ Depth (ProofSubtree ip))) in Hsub by lia.
  rewrite (uint64_small (2 ^ Depth (ProofIndex ip))) in Hidx by lia.
  rewrite uint64_small in Hsub by nia.
  rewrite uint64_small in Hidx by lia.
  split; assumption.
Qed.

(** X19. An error of the CID decoder, of the replay of the subtree proof,
    or of the construction of the index entry is returned to the caller,
    wrapped with the step that failed. *)
Theorem collaborator_errors_returned {C : Collaborators}
    (ip : InclusionProof) (veriferData : InclusionVerifierData) :
  (forall bytes e,
      CIDToPieceCommitmentV1 (CommPc veriferData) = (bytes, Some e) ->
      ComputeExpectedAuxData ip veriferData
      = Err (ErrWrap "invalid piece commitment" e))
  /\ (forall commPc nodeCommPc root e,
         CIDToPieceCommitmentV1 (CommPc veriferData) = (commPc, None) ->
         nodeOfSlice commPc = Ok nodeCommPc ->
         ComputeRoot (ProofSubtree ip) nodeCommPc = (root, Some e) ->
         ComputeExpectedAuxData ip veriferData
         = Err (ErrWrap "could not validate the subtree proof" e))
  /\ (forall commPc nodeCommPc root built e,
         CIDToPieceCommitmentV1 (CommPc veriferData) = (commPc, None) ->
         nodeOfSlice commPc = Ok nodeCommPc ->
         ComputeRoot (ProofSubtree ip) nodeCommPc = (root, None) ->
         0 <= Depth (ProofSubtree ip) ->
         MakeDataSegmentIndexEntry nodeCommPc
           (uint64 (Index (ProofSubtree ip) * uint64 (SizePc veriferData)))
           (uint64 (SizePc veriferData))
         = (built, Some e) ->
         ComputeExpectedAuxData ip veriferData
         = Err (ErrWrap "createding data segment index entry" e)).
Proof.
  unfold ComputeExpectedAuxData, shl1_uint64.
  split; [| split].
  - intros bytes e Hcid. rewrite Hcid. reflexivity.
  - intros commPc nodeCommPc root e Hcid Hnode Hsub.
    rewrite Hcid, Hnode. cbn [bind]. rewrite Hsub. reflexivity.
  - intros commPc nodeCommPc root built e Hcid Hnode Hsub Hd1 Hentry.
    rewrite Hcid, Hnode. cbn [bind]. rewrite Hsub.
    destruct (Z.ltb_spec (Depth (ProofSubtree ip)) 0) as [Hneg | _]; [lia |].
    cbn [bind]. rewrite Hentry. reflexivity.
Qed.

(** *** An aggregate of four pieces *)

#[local] Existing Instance specCollaborators.

(** Four pieces of 128 bytes fill the right half of the aggregate and
    their index entries the left half; the client piece is piece 2 and its
    entry is entry 2. *)
Definition aggEntryLeaf : Node :=
  truncatedHash (specSerialize (mkSpecEntry clientNode 256 128)).

Definition aggPieces : Node := computeNode clientNode filler.

Definition aggIndex : Node := computeNode filler (computeNode aggEntryLeaf filler).

Definition aggRoot : Node := computeNode aggIndex aggPieces.

Definition aggProof : InclusionProof :=
  mkInclusionProof (mkSpecProof [aggIndex; filler] 2)
                   (mkSpecProof [aggPieces; filler; filler] 2).

Definition aggData : InclusionVerifierData := mkVerifierData (data clientNode) 128.

Lemma agg_reaches :
  reachesIndexProof aggProof aggData (data clientNode) clientNode aggRoot
    (mkSpecEntry clientNode 256 128).
Proof.
  refine (conj _ (conj _ (conj _ (conj _ _)))); vm_compute;
    first [reflexivity | discriminate].
Defined.

Lemma agg_agrees :
  commitmentsAgree aggProof aggRoot (mkSpecEntry clientNode 256 128).
Proof.
  refine (conj _ _); vm_compute; first [reflexivity | discriminate].
Defined.

Lemma agg_encodes :
  PieceCommitmentV1ToCID (Collaborators := specCollaborators) (data aggRoot) = (data aggRoot, None).
Proof. vm_compute. reflexivity. Defined.

Lemma agg_returns :
  ComputeExpectedAuxData aggProof aggData = Ok (mkAuxData (data aggRoot) 512).
Proof.
  rewrite (run_after_commitments aggProof aggData (data clientNode) clientNode
             aggRoot (mkSpecEntry clientNode 256 128) agg_reaches agg_agrees).
  rewrite agg_encodes. reflexivity.
Defined.

(** The index proof of entry 3 in place of that of entry 2. *)
Definition swappedProof : InclusionProof :=
  mkInclusionProof (mkSpecProof [aggIndex; filler] 2)
                   (mkSpecProof [aggPieces; filler; filler] 3).

Definition swappedRoot : Node :=
  computeNode (computeNode filler (computeNode filler aggEntryLeaf)) aggPieces.

Lemma cross_check_rejects_witness :
  swappedRoot <> aggRoot
  /\ ComputeExpectedAuxData swappedProof aggData
     = Err (ErrNew ("aggregator's data commiements don't match: "
                      ++ hex (data aggRoot) ++ " != " ++ hex (data swappedRoot))).
Proof.
  assert (Hdiff : swappedRoot <> aggRoot) by (vm_compute; discriminate).
  split; [exact Hdiff |].
  apply (cross_check_rejects swappedProof aggData (data clientNode) clientNode
           aggRoot swappedRoot (mkSpecEntry clientNode 256 128)).
  - refine (conj _ (conj _ (conj _ (conj _ _)))); vm_compute;
      first [reflexivity | discriminate].
  - vm_compute. reflexivity.
  - vm_compute. discriminate.
  - exact Hdiff.
Defined.

Lemma success_guarantees_witness :
  exists aux commPa entry,
    ComputeExpectedAuxData aggProof aggData = Ok aux
    /\ commitmentsAgree aggProof commPa entry
    /\ PieceCommitmentV1ToCID (data commPa) = (CommPa aux, None).
Proof.
  destruct (success_guarantees aggProof aggData _ agg_returns)
    as (commPc & nodeCommPc & commPa & entry & _ & Hagree & Hencode & _).
  eexists. exists commPa, entry.
  split; [exact agg_returns |]. split; [exact Hagree | exact Hencode].
Defined.

Lemma sizes_exact_in_range_witness :
  exists aux,
    ComputeExpectedAuxData aggProof aggData = Ok aux
    /\ SizePa aux = 2 ^ Depth (ProofSubtree aggProof) * SizePc aggData
    /\ SizePa aux = 2 ^ Depth (ProofIndex aggProof) * 64.
Proof.
  assert (Hsize : 0 <= SizePc aggData < 2 ^ 64)
    by (vm_compute; split; [discriminate | reflexivity]).
  assert (Hpow : 2 ^ Depth (ProofSubtree aggProof) < 2 ^ 64)
    by (vm_compute; reflexivity).
  assert (Hfit1 : 2 ^ Depth (ProofSubtree aggProof) * SizePc aggData < 2 ^ 64)
    by (vm_compute; reflexivity).
  assert (Hfit2 : 2 ^ Depth (ProofIndex aggProof) * 64 < 2 ^ 64)
    by (vm_compute; reflexivity).
  eexists. split; [exact agg_returns |].
  exact (sizes_exact_in_range aggProof aggData _ agg_returns Hsize Hpow Hfit1 Hfit2).
Defined.

(** A CID that does not wrap 32 bytes. *)
Definition badCidData : InclusionVerifierData := mkVerifierData [] 128.

(** A subtree proof whose index is out of range for its path. *)
Definition badSubtreeProof : InclusionProof :=
  mkInclusionProof (mkSpecProof [filler] 2) (mkSpecProof [aggPieces; filler; filler] 2).

Lemma collaborator_errors_returned_witness :
  ComputeExpectedAuxData aggProof badCidData
  = Err (ErrWrap "invalid piece commitment" (ErrNew "not a piece commitment"))
  /\ ComputeExpectedAuxData badSubtreeProof aggData
     = Err (ErrWrap "could not validate the subtree proof"
              (ErrNew "index out of range for path length")).
Proof.
  split.
  - destruct (collaborator_errors_returned aggProof badCidData) as (Hcid & _ & _).
    apply (Hcid []). reflexivity.
  - destruct (collaborator_errors_returned badSubtreeProof aggData)
      as (_ & Hsub & _).
    apply (Hsub (data clientNode) clientNode None).
    + vm_compute. reflexivity.
    + vm_compute. reflexivity.
    + vm_compute. reflexivity.
Defined.

End VerifierProps.
